(** * Direct multiple shooting (modelica_ms.py): transcription of an optimal
    control problem into a nonlinear program.

    The tutorial script is embedded as a function of the values it reads:
    the constants [tf], [nk], [nj] and the model (right-hand side, running
    cost, initial-condition residual, bounds, initial guess).  Symbolic
    expressions in the decision symbols are functions of an environment
    that gives every symbol a numeric vector; a Python exception stops the
    script at the line that raises it. *)

From Stdlib Require Import List ZArith Lia Permutation Arith.
Import ListNotations.

Set Implicit Arguments.

(** ** Python exceptions and the error monad of the script *)

(** The exception classes.  [ZeroDivisionError], [IndexError] and
    [RuntimeError] are what the interpreter and the matrix library raise
    at the modelled lines; [ConfigurationError] is the class the design
    document names, which no line of the script raises. *)
Inductive pyexc : Type :=
| ZeroDivisionError
| IndexError
| RuntimeError
| ConfigurationError.

(** The outcome of a run: a value, or an exception with the source line
    that raised it. *)
Inductive result (A : Type) : Type :=
| Ok (a : A)
| Raise (e : pyexc) (line : nat).

Arguments Ok {A} a.
Arguments Raise {A} e line.

Definition bind {A B : Type} (c : result A) (k : A -> result B) : result B :=
  match c with
  | Ok a => k a
  | Raise e line => Raise e line
  end.

Notation "x <- c ;; k" := (bind c (fun x => k))
  (at level 61, c at next level, right associativity).

(** [for k in ks: s = body(k, s)] *)
Fixpoint for_each {S : Type} (ks : list nat) (body : nat -> S -> result S)
  (s : S) : result S :=
  match ks with
  | [] => Ok s
  | k :: ks' => s' <- body k s ;; for_each ks' body s'
  end.

(** [[g(k) for k in ks]] *)
Fixpoint comprehension {A : Type} (ks : list nat) (g : nat -> result A)
  : result (list A) :=
  match ks with
  | [] => Ok []
  | k :: ks' => a <- g k ;; r <- comprehension ks' g ;; Ok (a :: r)
  end.

(** [range(n)] for a Python integer [n]: empty when [n <= 0]. *)
Definition py_range (n : Z) : list nat := seq 0 (Z.to_nat n).

(** [l[i]] on a Python list: a negative index counts from the end, an
    index out of range raises [IndexError]. *)
Definition py_index {A : Type} (l : list A) (i : Z) (line : nat) : result A :=
  let j := if (i <? 0)%Z then (i + Z.of_nat (length l))%Z else i in
  if (j <? 0)%Z then Raise IndexError line
  else match nth_error l (Z.to_nat j) with
       | Some a => Ok a
       | None => Raise IndexError line
       end.

(** The run does not end in the exception [e]. *)
Definition never_raises {A : Type} (e : pyexc) (r : result A) : Prop :=
  forall line, r <> Raise e line.

(** ** Scalars and vectors *)

(** The arithmetic the script uses on numbers; no law is assumed of it, so
    every statement below holds for floating-point numbers as well as for
    exact ones. *)
Class Scalar (F : Type) : Type := {
  of_int : Z -> F;
  add : F -> F -> F;
  sub : F -> F -> F;
  mul : F -> F -> F;
  div : F -> F -> F
}.

Section Shooting.

Context {F : Type} {SF : Scalar F}.

Definition vec : Type := list F.

(** Elementwise operation on two column vectors.  The matrix library
    refuses operands of different sizes; under the model's shape invariant
    the sizes agree, and here the shorter operand decides the length. *)
Fixpoint zip_with (op : F -> F -> F) (a b : vec) : vec :=
  match a, b with
  | x :: a', y :: b' => op x y :: zip_with op a' b'
  | _, _ => []
  end.

Definition vadd : vec -> vec -> vec := zip_with add.
Definition vsub : vec -> vec -> vec := zip_with sub.
(** [c * a] for a number [c] and a vector [a]. *)
Definition vscale (c : F) (a : vec) : vec := map (mul c) a.

(** [a / n] for a float [a] and a Python integer [n]: division by zero
    raises. *)
Definition py_div (a : F) (n : Z) (line : nat) : result F :=
  if (n =? 0)%Z then Raise ZeroDivisionError line
  else Ok (div a (of_int n)).

(** ** The ODE function and the RK4 integrator (lines 91, 136-151) *)

(** [ode_fcn = MXFunction([x,u],[f,L])] *)
Definition ode_fcn (f : vec -> vec -> vec) (L : vec -> vec -> F)
  : vec -> vec -> vec * F :=
  fun x u => (f x u, L x u).

(** The body of the loop of lines 142-148, on the pair [(xkj, xkj_L)]. *)
Definition rk4_body (ode : vec -> vec -> vec * F) (h : F) (uk : vec)
  (st : vec * F) : vec * F :=
  let '(xkj, xkj_L) := st in
  let '(k1, k1_L) := ode xkj uk in
  let '(k2, k2_L) := ode (vadd xkj (vscale (div h (of_int 2)) k1)) uk in
  let '(k3, k3_L) := ode (vadd xkj (vscale (div h (of_int 2)) k2)) uk in
  let '(k4, k4_L) := ode (vadd xkj (vscale h k3)) uk in
  (vadd xkj
     (vscale (div h (of_int 6))
        (vadd (vadd (vadd k1 (vscale (of_int 2) k2)) (vscale (of_int 2) k3)) k4)),
   add xkj_L
     (mul (div h (of_int 6))
        (add (add (add k1_L (mul (of_int 2) k2_L)) (mul (of_int 2) k3_L)) k4_L))).

(** [integrator = MXFunction([xk,uk],[xkj,xkj_L])] for the step [h] and
    [nj] sub-steps. *)
Definition integrator (ode : vec -> vec -> vec * F) (h : F) (nj : Z)
  (xk uk : vec) : vec * F :=
  fold_left (fun st _ => rk4_body ode h uk st) (py_range nj) (xk, of_int 0).

(** The recurrence of the design document, written from its words: the
    stages of one sub-step from [f] and from [L], and the sequence
    [(x_j, L_j)] with [x_0 = x_start], [L_0 = 0]. *)
Definition rk4_stage_spec (f : vec -> vec -> vec) (L : vec -> vec -> F)
  (h : F) (u : vec) (xj : vec) (Lj : F) : vec * F :=
  let k1 := f xj u in
  let k2 := f (vadd xj (vscale (div h (of_int 2)) k1)) u in
  let k3 := f (vadd xj (vscale (div h (of_int 2)) k2)) u in
  let k4 := f (vadd xj (vscale h k3)) u in
  let k1_L := L xj u in
  let k2_L := L (vadd xj (vscale (div h (of_int 2)) k1)) u in
  let k3_L := L (vadd xj (vscale (div h (of_int 2)) k2)) u in
  let k4_L := L (vadd xj (vscale h k3)) u in
  (vadd xj
     (vscale (div h (of_int 6))
        (vadd (vadd (vadd k1 (vscale (of_int 2) k2)) (vscale (of_int 2) k3)) k4)),
   add Lj
     (mul (div h (of_int 6))
        (add (add (add k1_L (mul (of_int 2) k2_L)) (mul (of_int 2) k3_L)) k4_L))).

Fixpoint rk4_seq_spec (f : vec -> vec -> vec) (L : vec -> vec -> F)
  (h : F) (x_start u : vec) (j : nat) : vec * F :=
  match j with
  | O => (x_start, of_int 0)
  | S j' =>
      let '(xj, Lj) := rk4_seq_spec f L h x_start u j' in
      rk4_stage_spec f L h u xj Lj
  end.

(** ** The model and the constants of the script (lines 49-75, 106, 138) *)

(** What the script reads from the imported model: the sizes of [x], [u]
    and [I], the expressions [f], [L], [I] as functions of [(x,u)], and the
    bounds and initial guesses. *)
Record Model : Type := {
  nx : nat;                      (* x.size1() *)
  nu : nat;                      (* u.size1() *)
  nI : nat;                      (* I.size1() *)
  ode_f : vec -> vec -> vec;     (* f = vertcat(ivp.ode) *)
  quad_L : vec -> vec -> F;      (* L = vertcat(ivp.quad) *)
  init_I : vec -> vec;           (* I = vertcat(ivp.init) *)
  lbx : vec; ubx : vec;
  lbu : vec; ubu : vec;
  x0 : vec; u0 : vec
}.

Record Config : Type := {
  tf : F;
  nk : Z;
  nj : Z
}.

(** ** Decision symbols and symbolic expressions (lines 167-168) *)

(** [MX.sym("x" + str(k), nx)] and [MX.sym("u" + str(k), nu)]. *)
Inductive sym : Type :=
| SymX (k : nat)
| SymU (k : nat).

Definition sym_eqb (s t : sym) : bool :=
  match s, t with
  | SymX a, SymX b => Nat.eqb a b
  | SymU a, SymU b => Nat.eqb a b
  | _, _ => false
  end.

Definition sym_size (M : Model) (s : sym) : nat :=
  match s with
  | SymX _ => nx M
  | SymU _ => nu M
  end.

(** A numeric value for every symbol. *)
Definition env : Type := sym -> vec.

(** A symbolic column vector: its declared number of rows and its value
    under an environment. *)
Record MX : Type := {
  size1 : nat;
  eval : env -> vec
}.

Definition mx_sym (M : Model) (s : sym) : MX :=
  {| size1 := sym_size M s; eval := fun e => e s |}.

(** [a - b] *)
Definition mx_sub (a b : MX) : MX :=
  {| size1 := size1 a; eval := fun e => vsub (eval a e) (eval b e) |}.

(** [vertcat(l)] of symbolic vectors. *)
Definition mx_vertcat (l : list MX) : MX :=
  {| size1 := fold_right (fun m n => size1 m + n) 0 l;
     eval := fun e => concat (map (fun m => eval m e) l) |}.

(** ** Layout of the decision vector (lines 170-187) *)

(** [def valloc(n, nv): return range(nv, nv+n), nv+n] *)
Definition valloc (n nv : nat) : list nat * nat := (seq nv n, nv + n).

(** The variables the layout loop updates. *)
Record Alloc : Type := {
  a_v : list sym;
  a_lbv : list vec;
  a_ubv : list vec;
  a_v0 : list vec;
  a_nv : nat;
  a_vind_x : list (list nat);
  a_vind_u : list (list nat)
}.

(** Line 170-174. *)
Definition alloc_init : Alloc :=
  {| a_v := []; a_lbv := []; a_ubv := []; a_v0 := []; a_nv := 0;
     a_vind_x := []; a_vind_u := [] |}.

(** Lines 178-179 and 184-185: allocate one state block for [xk[i]]. *)
Definition alloc_state (M : Model) (xk : list sym) (i : Z) (line : nat)
  (st : Alloc) : result Alloc :=
  let '(ind, nv') := valloc (nx M) (a_nv st) in
  xs <- py_index xk i line ;;
  Ok {| a_v := a_v st ++ [xs];
        a_lbv := a_lbv st ++ [lbx M];
        a_ubv := a_ubv st ++ [ubx M];
        a_v0 := a_v0 st ++ [x0 M];
        a_nv := nv';
        a_vind_x := a_vind_x st ++ [ind];
        a_vind_u := a_vind_u st |}.

(** Lines 181-182: allocate one control block for [uk[i]]. *)
Definition alloc_control (M : Model) (uk : list sym) (i : Z) (line : nat)
  (st : Alloc) : result Alloc :=
  let '(ind, nv') := valloc (nu M) (a_nv st) in
  us <- py_index uk i line ;;
  Ok {| a_v := a_v st ++ [us];
        a_lbv := a_lbv st ++ [lbu M];
        a_ubv := a_ubv st ++ [ubu M];
        a_v0 := a_v0 st ++ [u0 M];
        a_nv := nv';
        a_vind_x := a_vind_x st;
        a_vind_u := a_vind_u st ++ [ind] |}.

(** The body of the loop of lines 176-182. *)
Definition alloc_body (M : Model) (xk uk : list sym) (k : nat) (st : Alloc)
  : result Alloc :=
  st1 <- alloc_state M xk (Z.of_nat k) 179 st ;;
  alloc_control M uk (Z.of_nat k) 182 st1.

(** Lines 170-185. *)
Definition alloc_all (M : Model) (nk : Z) (xk uk : list sym) : result Alloc :=
  st <- for_each (py_range nk) (alloc_body M xk uk) alloc_init ;;
  alloc_state M xk (-1) 185 st.

(** ** Objective and constraints (lines 190-200) *)

(** The body of the loop of lines 197-200 on the pair [(J, eq)]. *)
Definition nlp_body (M : Model) (integ : vec -> vec -> vec * F) (nk : Z)
  (xk uk : list sym) (k : nat) (st : (env -> F) * list MX)
  : result ((env -> F) * list MX) :=
  let '(J, eq) := st in
  xs <- py_index xk (Z.of_nat k) 198 ;;
  us <- py_index uk (Z.of_nat k) 198 ;;
  let xk_end := {| size1 := nx M; eval := fun e => fst (integ (e xs) (e us)) |} in
  let Jk := fun e : env => snd (integ (e xs) (e us)) in
  let J' := fun e : env => add (J e) (Jk e) in
  if (Z.of_nat k + 1 <? nk)%Z then
    xn <- py_index xk (Z.of_nat k + 1) 200 ;;
    Ok (J', eq ++ [mx_sub xk_end (mx_sym M xn)])
  else Ok (J', eq).

(** Lines 190-200. *)
Definition nlp_all (M : Model) (integ : vec -> vec -> vec * F) (nk : Z)
  (xk uk : list sym) : result ((env -> F) * list MX) :=
  let J := fun _ : env => of_int 0 in
  let eq : list MX := [] in
  xs <- py_index xk 0 193 ;;
  let eq0 := {| size1 := nI M; eval := fun e => init_I M (e xs) |} in
  for_each (py_range nk) (nlp_body M integ nk xk uk) (J, eq ++ [eq0]).

(** ** The whole transcription (lines 106-213) *)

(** The variables of the script once the solver inputs are set. *)
Record Transcription : Type := {
  dt : F;
  h : F;
  integ : vec -> vec -> vec * F; (* the function integrator *)
  v : list sym;                  (* v, before and after vertcat *)
  lbv : vec; ubv : vec; v0 : vec;
  nv : nat;
  vind_x : list (list nat);      (* vind['x'] *)
  vind_u : list (list nat);      (* vind['u'] *)
  J : env -> F;
  eqs : list MX;                 (* the list eq *)
  g : MX;                        (* vertcat(eq) *)
  lbg : vec; ubg : vec
}.

Definition transcribe (M : Model) (c : Config) : result Transcription :=
  dt <- py_div (tf c) (nk c) 107 ;;
  h <- py_div dt (nj c) 138 ;;
  let integ := integrator (ode_fcn (ode_f M) (quad_L M)) h (nj c) in
  let xk := map SymX (py_range (nk c + 1)) in
  let uk := map SymU (py_range (nk c)) in
  a <- alloc_all M (nk c) xk uk ;;
  Jeq <- nlp_all M integ (nk c) xk uk ;;
  let g := mx_vertcat (snd Jeq) in
  Ok {| dt := dt;
        h := h;
        integ := integ;
        v := a_v a;
        lbv := concat (a_lbv a);
        ubv := concat (a_ubv a);
        v0 := concat (a_v0 a);
        nv := a_nv a;
        vind_x := a_vind_x a;
        vind_u := a_vind_u a;
        J := fst Jeq;
        eqs := snd Jeq;
        g := g;
        lbg := repeat (of_int 0) (size1 g);
        ubg := repeat (of_int 0) (size1 g) |}.

(** ** Evaluating the NLP function at a decision vector (line 205) *)

(** [nlp = MXFunction(nlpIn(x=v), ...)]: the input vector is cut along the
    symbols of [v], in order, each symbol taking as many entries as it has
    rows.  A symbol that is not in [v] has no value. *)
Fixpoint bind_input (M : Model) (v : list sym) (vv : vec) (s : sym) : vec :=
  match v with
  | [] => []
  | s' :: rest =>
      if sym_eqb s s' then firstn (sym_size M s') vv
      else bind_input M rest (skipn (sym_size M s') vv) s
  end.

(** The outputs [f] and [g] of [nlp] at the decision vector [vv]. *)
Definition nlp (M : Model) (T : Transcription) (vv : vec) : F * vec :=
  let e := bind_input M (v T) vv in
  (J T e, eval (g T) e).

(** ** Reading the solution (lines 217-225) *)

(** [v_opt[idx]] for a list of positions: a position out of range is
    refused by the matrix library. *)
Definition mx_getitem (v_opt : vec) (idx : list nat) (line : nat)
  : result vec :=
  comprehension idx
    (fun i => match nth_error v_opt i with
              | Some a => Ok a
              | None => Raise RuntimeError line
              end).

(** [v_opt[[vind[k][i] for k in range(n)]]] *)
Definition component_opt (vind : list (list nat)) (n : Z) (i : Z)
  (line : nat) (v_opt : vec) : result vec :=
  idx <- comprehension (py_range n)
           (fun k => r <- py_index vind (Z.of_nat k) line ;;
                     py_index r i line) ;;
  mx_getitem v_opt idx line.

Definition x0_opt (c : Config) (T : Transcription) : vec -> result vec :=
  component_opt (vind_x T) (nk c + 1) 0 218.
Definition x1_opt (c : Config) (T : Transcription) : vec -> result vec :=
  component_opt (vind_x T) (nk c + 1) 1 219.
Definition u_opt (c : Config) (T : Transcription) : vec -> result vec :=
  component_opt (vind_u T) (nk c) 0 220.

(** Modelled from the spec: [linspace] is code of the array library, not
    of this repository, and is not under src/.  The spec gives the grid as
    the equally spaced times [0, dt, 2dt, ..., tf]; the model follows the
    library's computation for [linspace(start, stop, num)] with the end
    point included: no sample for [num <= 0], the sample [start] for
    [num = 1], and otherwise [step = (stop - start)/float(num - 1)],
    [y = arange(0, num)*step + start], then [y[-1] = stop]: the last sample
    is [stop] itself, not a computed value. *)
Definition linspace (start stop : F) (num : Z) : vec :=
  if (num <=? 0)%Z then []
  else if (num =? 1)%Z then [start]
  else
    let step := div (sub stop start) (of_int (num - 1)) in
    map (fun k => add (mul (of_int (Z.of_nat k)) step) start)
        (py_range (num - 1))
    ++ [stop].

(** Line 225. *)
Definition tgrid (c : Config) : vec := linspace (of_int 0) (tf c) (nk c + 1).

(** ** Closed forms used in the statements *)

(** One state block and one control block. *)
Definition stride (M : Model) : nat := nx M + nu M.

(** The positions of the [k]-th state block and control block. *)
Definition x_range (M : Model) (k : nat) : list nat :=
  seq (k * stride M) (nx M).
Definition u_range (M : Model) (k : nat) : list nat :=
  seq (k * stride M + nx M) (nu M).

(** The entries of a decision vector at those positions. *)
Definition x_block (M : Model) (k : nat) (vv : vec) : vec :=
  firstn (nx M) (skipn (k * stride M) vv).
Definition u_block (M : Model) (k : nat) (vv : vec) : vec :=
  firstn (nu M) (skipn (k * stride M + nx M) vv).

(** [m] pairs (state item, control item) from node [a] on, then the state
    item of node [a + m]. *)
Definition layout_from {A : Type} (fx fu : nat -> A) (a m : nat) : list A :=
  flat_map (fun j => [fx j; fu j]) (seq a m) ++ [fx (a + m)].

(** The layout variables after [k] turns of the loop of lines 176-182. *)
Definition alloc_upto (M : Model) (k : nat) : Alloc :=
  {| a_v := flat_map (fun j => [SymX j; SymU j]) (seq 0 k);
     a_lbv := flat_map (fun _ => [lbx M; lbu M]) (seq 0 k);
     a_ubv := flat_map (fun _ => [ubx M; ubu M]) (seq 0 k);
     a_v0 := flat_map (fun _ => [x0 M; u0 M]) (seq 0 k);
     a_nv := k * stride M;
     a_vind_x := map (x_range M) (seq 0 k);
     a_vind_u := map (u_range M) (seq 0 k) |}.

(** The layout variables after line 185. *)
Definition alloc_final (M : Model) (n : nat) : Alloc :=
  {| a_v := layout_from SymX SymU 0 n;
     a_lbv := layout_from (fun _ => lbx M) (fun _ => lbu M) 0 n;
     a_ubv := layout_from (fun _ => ubx M) (fun _ => ubu M) 0 n;
     a_v0 := layout_from (fun _ => x0 M) (fun _ => u0 M) 0 n;
     a_nv := n * stride M + nx M;
     a_vind_x := map (x_range M) (seq 0 (S n));
     a_vind_u := map (u_range M) (seq 0 n) |}.

(** The initial-condition residual at the first state symbol. *)
Definition init_mx (M : Model) : MX :=
  {| size1 := nI M; eval := fun e => init_I M (e (SymX 0)) |}.

(** The defect of interval [k]: the state the integrator predicts from the
    symbols of interval [k], minus the state symbol of node [k+1]. *)
Definition defect_mx (M : Model) (integ : vec -> vec -> vec * F) (k : nat)
  : MX :=
  mx_sub {| size1 := nx M;
            eval := fun e => fst (integ (e (SymX k)) (e (SymU k))) |}
         (mx_sym M (SymX (S k))).

(** The cost after [k] turns of the loop of lines 197-200. *)
Fixpoint J_upto (integ : vec -> vec -> vec * F) (k : nat) : env -> F :=
  match k with
  | O => fun _ => of_int 0
  | S k' => fun e => add (J_upto integ k' e)
                         (snd (integ (e (SymX k')) (e (SymU k'))))
  end.

(** The pair [(J, eq)] after [k] turns of that loop, for [n] intervals. *)
Definition nlp_upto (M : Model) (integ : vec -> vec -> vec * F) (n k : nat)
  : (env -> F) * list MX :=
  (J_upto integ k,
   [init_mx M] ++ map (defect_mx M integ) (seq 0 (Nat.min k (n - 1)))).

(** A sum accumulated from zero, left to right. *)
Definition sum_from_zero (l : list F) : F := fold_left add l (of_int 0).

(** All entries are the number zero. *)
Definition all_zero (a : vec) : Prop := a = repeat (of_int 0) (length a).

(** The variables of the script after line 213, in closed form. *)
Definition transcription_of (M : Model) (c : Config) : Transcription :=
  let n := Z.to_nat (nk c) in
  let dt := div (tf c) (of_int (nk c)) in
  let h := div dt (of_int (nj c)) in
  let integ := integrator (ode_fcn (ode_f M) (quad_L M)) h (nj c) in
  let a := alloc_final M n in
  let Jeq := nlp_upto M integ n n in
  let g := mx_vertcat (snd Jeq) in
  {| dt := dt; h := h; integ := integ;
     v := a_v a;
     lbv := concat (a_lbv a); ubv := concat (a_ubv a); v0 := concat (a_v0 a);
     nv := a_nv a; vind_x := a_vind_x a; vind_u := a_vind_u a;
     J := fst Jeq; eqs := snd Jeq; g := g;
     lbg := repeat (of_int 0) (size1 g);
     ubg := repeat (of_int 0) (size1 g) |}.

(** The constraint list holds the defect of interval [k]: a block of [nx]
    rows whose value is the state predicted from the symbols of interval
    [k] minus the state symbol of node [k+1]. *)
Definition has_continuity_constraint (M : Model) (T : Transcription)
  (k : nat) : Prop :=
  exists m, In m (eqs T) /\ size1 m = nx M /\
    forall e : env,
      eval m e
      = vsub (fst (integ T (e (SymX k)) (e (SymU k)))) (e (SymX (k + 1))).

(** [l] holds, node after node, entry [i] of [count] blocks. *)
Definition samples_of (blocks : nat -> vec) (i count : nat) (l : vec)
  : Prop :=
  length l = count /\
  forall k, k < count -> nth_error l k = nth_error (blocks k) i.

(** ** The control samples of the step plot (line 237) *)

(** [vertcat((u_opt[0], u_opt))]: the first sample once more, in front.
    [u_opt[0]] of an empty matrix is refused by the matrix library. *)
Definition u_step (u_opt : vec) (line : nat) : result vec :=
  match nth_error u_opt 0 with
  | Some a => Ok (a :: u_opt)
  | None => Raise RuntimeError line
  end.

(** Lines 220 and 237: the control read from the solution, then the
    samples passed to [step] together with [tgrid]. *)
Definition u_plot (c : Config) (T : Transcription) (v_opt : vec)
  : result vec :=
  u <- u_opt c T v_opt ;;
  u_step u 237.

(** Every state symbol has a value of [nx] rows, every control symbol one
    of [nu] rows. *)
Definition well_shaped (M : Model) (e : env) : Prop :=
  forall k, length (e (SymX k)) = nx M /\ length (e (SymU k)) = nu M.

End Shooting.

Arguments Model F : clear implicits.
Arguments Config F : clear implicits.
Arguments Transcription F : clear implicits.

(** ** A concrete instance: integer arithmetic and a two-state model *)

#[export] Instance Scalar_Z : Scalar Z :=
  {| of_int := fun n => n;
     add := Z.add; sub := Z.sub; mul := Z.mul; div := Z.div |}.

(** Two states, one control: [f = [x1 + u, x0]], [L = x0*x0 + u*u],
    [I = [x0 - 1, x1]]. *)
Definition sample_model : Model Z :=
  {| nx := 2; nu := 1; nI := 2;
     ode_f := fun x u =>
       [(nth 1 x 0 + nth 0 u 0)%Z; nth 0 x 0%Z];
     quad_L := fun x u =>
       (nth 0 x 0 * nth 0 x 0 + nth 0 u 0 * nth 0 u 0)%Z;
     init_I := fun x => [(nth 0 x 0 - 1)%Z; nth 1 x 0%Z];
     lbx := [-5; -7]%Z; ubx := [5; 7]%Z;
     lbu := [-3]%Z; ubu := [3]%Z;
     x0 := [1; 0]%Z; u0 := [2]%Z |}.

Definition sample_config (nk nj : Z) : Config Z :=
  {| tf := 12%Z; nk := nk; nj := nj |}.

(** Two intervals of three sub-steps. *)
Definition sample_run : Config Z := sample_config 2 3.

(** One state and no control: [f = [x0]], [L = x0*x0], [I = [x0 - 1]]. *)
Definition one_state_model : Model Z :=
  {| nx := 1; nu := 0; nI := 1;
     ode_f := fun x u => [nth 0 x 0%Z];
     quad_L := fun x u => (nth 0 x 0 * nth 0 x 0)%Z;
     init_I := fun x => [(nth 0 x 0 - 1)%Z];
     lbx := [-5]%Z; ubx := [5]%Z;
     lbu := []; ubu := [];
     x0 := [1]%Z; u0 := [] |}.

(** No state and no control. *)
Definition no_state_model : Model Z :=
  {| nx := 0; nu := 0; nI := 0;
     ode_f := fun x u => [];
     quad_L := fun x u => 0%Z;
     init_I := fun x => [];
     lbx := []; ubx := [];
     lbu := []; ubu := [];
     x0 := []; u0 := [] |}.

(** * Properties *)

(** ** Loops, indexing and ranges *)

Lemma bind_ok {A B : Type} (c : result A) (k : A -> result B) (a : A) :
  c = Ok a -> bind c k = k a.
Proof. intros ->. reflexivity. Qed.

Lemma for_each_seq_from {St : Type} (body : nat -> St -> result St)
  (cl : nat -> St) (m a : nat) :
  (forall k, a <= k < a + m -> body k (cl k) = Ok (cl (S k))) ->
  for_each (seq a m) body (cl a) = Ok (cl (a + m)).
Proof.
  revert a. induction m as [|m IH]; intros a Hstep; simpl.
  - now rewrite Nat.add_0_r.
  - rewrite (Hstep a) by lia. simpl.
    rewrite IH by (intros k Hk; apply Hstep; lia).
    f_equal. f_equal. lia.
Qed.

Lemma for_each_range {St : Type} (body : nat -> St -> result St)
  (cl : nat -> St) (n : Z) :
  (forall k, k < Z.to_nat n -> body k (cl k) = Ok (cl (S k))) ->
  for_each (py_range n) body (cl 0) = Ok (cl (Z.to_nat n)).
Proof.
  intros Hstep. unfold py_range.
  apply for_each_seq_from with (a := 0).
  intros k Hk. apply Hstep. lia.
Qed.

Lemma py_index_nat {A : Type} (l : list A) (k : nat) (line : nat) (a : A) :
  nth_error l k = Some a -> py_index l (Z.of_nat k) line = Ok a.
Proof.
  intros H. unfold py_index.
  destruct (Z.ltb_spec (Z.of_nat k) 0) as [Hneg|_]; [lia|].
  destruct (Z.ltb_spec (Z.of_nat k) 0) as [Hneg|_]; [lia|].
  now rewrite Nat2Z.id, H.
Qed.

Lemma py_index_last {A : Type} (l : list A) (n : nat) (line : nat) (a : A) :
  length l = S n -> nth_error l n = Some a -> py_index l (-1) line = Ok a.
Proof.
  intros Hlen H. unfold py_index.
  change ((-1 <? 0)%Z) with true. cbv iota. rewrite Hlen.
  destruct (Z.ltb_spec (-1 + Z.of_nat (S n)) 0) as [Hneg|_]; [lia|].
  replace (Z.to_nat (-1 + Z.of_nat (S n))) with n by lia.
  now rewrite H.
Qed.

Lemma nth_error_map_seq {A : Type} (fx : nat -> A) (n k : nat) :
  k < n -> nth_error (map fx (seq 0 n)) k = Some (fx k).
Proof.
  intros Hk. rewrite nth_error_map, nth_error_seq.
  destruct (Nat.ltb_spec k n); [reflexivity | lia].
Qed.

Lemma py_index_range {A : Type} (fx : nat -> A) (n : Z) (k line : nat) :
  k < Z.to_nat n ->
  py_index (map fx (py_range n)) (Z.of_nat k) line = Ok (fx k).
Proof.
  intros Hk. apply py_index_nat. unfold py_range.
  now apply nth_error_map_seq.
Qed.

Section Properties.

Context {F : Type} {SF : Scalar F}.

Implicit Types (M : Model F) (c : Config F) (T : Transcription F).
Local Abbreviation vec := (@vec F).
Local Abbreviation env := (@env F).

(** ** The integrator *)

Lemma rk4_loop_seq (f : vec -> vec -> vec) (L : vec -> vec -> F) (h : F)
  (x_start u : vec) (m a j : nat) :
  fold_left (fun st _ => rk4_body (ode_fcn f L) h u st) (seq a m)
    (rk4_seq_spec f L h x_start u j)
  = rk4_seq_spec f L h x_start u (j + m).
Proof.
  revert a j. induction m as [|m IH]; intros a j; simpl.
  - now rewrite Nat.add_0_r.
  - replace (j + S m) with (S j + m) by lia.
    rewrite <- IH with (a := S a). reflexivity.
Qed.

Lemma integrator_seq (f : vec -> vec -> vec) (L : vec -> vec -> F) (h : F)
  (nj : Z) (x_start u : vec) :
  integrator (ode_fcn f L) h nj x_start u
  = rk4_seq_spec f L h x_start u (Z.to_nat nj).
Proof.
  unfold integrator, py_range.
  apply (rk4_loop_seq f L h x_start u (Z.to_nat nj) 0 0).
Qed.

Lemma rk4_seq_state_only (f : vec -> vec -> vec) (L L' : vec -> vec -> F)
  (h : F) (x_start u : vec) (j : nat) :
  fst (rk4_seq_spec f L h x_start u j) = fst (rk4_seq_spec f L' h x_start u j).
Proof.
  induction j as [|j IH]; simpl; [reflexivity|].
  destruct (rk4_seq_spec f L h x_start u j) as [xj Lj].
  destruct (rk4_seq_spec f L' h x_start u j) as [xj' Lj'].
  simpl in IH. subst xj'. reflexivity.
Qed.

(** ** The layout loop *)

Lemma alloc_body_step M (nk : Z) (k : nat) :
  k < Z.to_nat nk ->
  alloc_body M (map SymX (py_range (nk + 1))) (map SymU (py_range nk)) k
    (alloc_upto M k)
  = Ok (alloc_upto M (S k)).
Proof.
  intros Hk. unfold alloc_body, alloc_state, alloc_control, valloc.
  rewrite py_index_range by lia. cbn [bind a_nv].
  rewrite py_index_range by lia. cbn [bind].
  f_equal. unfold alloc_upto. cbn -[seq stride Nat.mul].
  rewrite !seq_S, !flat_map_app, !map_app. cbn -[stride Nat.mul].
  rewrite <- !app_assoc. cbn -[stride Nat.mul].
  f_equal. unfold stride. lia.
Qed.

Lemma alloc_all_ok M (nk : Z) :
  (0 <= nk)%Z ->
  alloc_all M nk (map SymX (py_range (nk + 1))) (map SymU (py_range nk))
  = Ok (alloc_final M (Z.to_nat nk)).
Proof.
  intros Hnk. unfold alloc_all.
  rewrite (for_each_range _ (alloc_upto M) nk)
    by (intros k Hk; now apply alloc_body_step).
  cbn [bind]. unfold alloc_state, valloc.
  rewrite (@py_index_last _ _ (Z.to_nat nk) 185 (SymX (Z.to_nat nk))).
  - cbn [bind]. f_equal. unfold alloc_final, alloc_upto, layout_from.
    cbn -[seq stride Nat.mul].
    rewrite seq_S, map_app. reflexivity.
  - rewrite length_map. unfold py_range. rewrite length_seq. lia.
  - unfold py_range. apply nth_error_map_seq. lia.
Qed.

(** ** The loop of the objective and the constraints *)

Lemma nlp_body_step M (integ : vec -> vec -> vec * F) (nk : Z) (k : nat) :
  k < Z.to_nat nk ->
  nlp_body M integ nk (map SymX (py_range (nk + 1))) (map SymU (py_range nk))
    k (nlp_upto M integ (Z.to_nat nk) k)
  = Ok (nlp_upto M integ (Z.to_nat nk) (S k)).
Proof.
  intros Hk. unfold nlp_body, nlp_upto.
  rewrite py_index_range by lia. cbn [bind].
  rewrite py_index_range by lia. cbn [bind].
  destruct (Z.ltb_spec (Z.of_nat k + 1) nk) as [Hlt|Hge].
  - replace (Z.of_nat k + 1)%Z with (Z.of_nat (S k)) by lia.
    rewrite py_index_range by lia. cbn [bind].
    replace (Nat.min k (Z.to_nat nk - 1)) with k by lia.
    replace (Nat.min (S k) (Z.to_nat nk - 1)) with (S k) by lia.
    rewrite seq_S, map_app, <- app_assoc. reflexivity.
  - replace (Nat.min k (Z.to_nat nk - 1)) with (Z.to_nat nk - 1) by lia.
    replace (Nat.min (S k) (Z.to_nat nk - 1)) with (Z.to_nat nk - 1) by lia.
    reflexivity.
Qed.

Lemma nlp_all_ok M (integ : vec -> vec -> vec * F) (nk : Z) :
  (0 <= nk)%Z ->
  nlp_all M integ nk (map SymX (py_range (nk + 1))) (map SymU (py_range nk))
  = Ok (nlp_upto M integ (Z.to_nat nk) (Z.to_nat nk)).
Proof.
  intros Hnk. unfold nlp_all.
  replace 0%Z with (Z.of_nat 0) by reflexivity.
  rewrite py_index_range by lia. cbn [bind].
  apply (for_each_range _ (nlp_upto M integ (Z.to_nat nk)) nk).
  intros k Hk. now apply nlp_body_step.
Qed.

(** ** The whole script *)

Lemma transcribe_ok M c :
  (1 <= nk c)%Z -> nj c <> 0%Z ->
  transcribe M c = Ok (transcription_of M c).
Proof.
  intros Hnk Hnj. unfold transcribe, py_div.
  destruct (Z.eqb_spec (nk c) 0) as [E|_]; [lia|]. cbn [bind].
  destruct (Z.eqb_spec (nj c) 0) as [E|_]; [contradiction|]. cbn [bind].
  rewrite alloc_all_ok by lia. cbn [bind].
  rewrite nlp_all_ok by lia. cbn [bind].
  reflexivity.
Qed.

(** ** Interleaved layouts *)

Section Layout.

Variable A : Type.
Variables (fx fu : nat -> list A) (lx lu : nat).
Hypothesis fx_length : forall j, length (fx j) = lx.
Hypothesis fu_length : forall j, length (fu j) = lu.

Lemma layout_from_S (B : Type) (gx gu : nat -> B) (a m : nat) :
  layout_from gx gu a (S m) = gx a :: gu a :: layout_from gx gu (S a) m.
Proof.
  unfold layout_from. simpl. now rewrite Nat.add_succ_r.
Qed.

Lemma concat_layout_length (a m : nat) :
  length (concat (layout_from fx fu a m)) = m * (lx + lu) + lx.
Proof.
  revert a. induction m as [|m IH]; intros a.
  - unfold layout_from. simpl. rewrite app_nil_r. apply fx_length.
  - rewrite layout_from_S. simpl concat.
    rewrite !length_app, IH, fx_length, fu_length. lia.
Qed.

Lemma concat_layout_x (m a k : nat) :
  k <= m ->
  exists pre post,
    concat (layout_from fx fu a m) = pre ++ fx (a + k) ++ post /\
    length pre = k * (lx + lu).
Proof.
  revert a k. induction m as [|m IH]; intros a k Hk.
  - assert (k = 0) by lia. subst k. exists [], [].
    unfold layout_from. simpl. now rewrite app_nil_r.
  - rewrite layout_from_S. simpl concat. destruct k as [|k].
    + exists [], (fu a ++ concat (layout_from fx fu (S a) m)).
      rewrite Nat.add_0_r. split; reflexivity.
    + destruct (IH (S a) k) as (pre & post & E & Hlen); [lia|].
      exists (fx a ++ fu a ++ pre), post. split.
      * replace (a + S k) with (S a + k) by lia.
        now rewrite E, <- !app_assoc.
      * rewrite !length_app, Hlen, fx_length, fu_length. lia.
Qed.

Lemma concat_layout_u (m a k : nat) :
  k < m ->
  exists pre post,
    concat (layout_from fx fu a m) = pre ++ fu (a + k) ++ post /\
    length pre = k * (lx + lu) + lx.
Proof.
  revert a k. induction m as [|m IH]; intros a k Hk; [lia|].
  rewrite layout_from_S. simpl concat. destruct k as [|k].
  - exists (fx a), (concat (layout_from fx fu (S a) m)).
    rewrite Nat.add_0_r, fx_length. split; reflexivity.
  - destruct (IH (S a) k) as (pre & post & E & Hlen); [lia|].
    exists (fx a ++ fu a ++ pre), post. split.
    + replace (a + S k) with (S a + k) by lia.
      now rewrite E, <- !app_assoc.
    + rewrite !length_app, Hlen, fx_length, fu_length. lia.
Qed.

End Layout.

Lemma slice_positions (A : Type) (blk pre post : list A) :
  map (nth_error (pre ++ blk ++ post)) (seq (length pre) (length blk))
  = map Some blk.
Proof.
  revert pre. induction blk as [|b blk IH]; intros pre; [reflexivity|].
  simpl length. simpl seq. simpl map. f_equal.
  - rewrite nth_error_app2 by lia. now rewrite Nat.sub_diag.
  - specialize (IH (pre ++ [b])).
    rewrite length_app, Nat.add_1_r, <- app_assoc in IH. exact IH.
Qed.

Lemma slice_take_drop (A : Type) (blk pre post : list A) :
  firstn (length blk) (skipn (length pre) (pre ++ blk ++ post)) = blk.
Proof.
  rewrite skipn_app, skipn_all, Nat.sub_diag. simpl.
  rewrite firstn_app, firstn_all, Nat.sub_diag. simpl. apply app_nil_r.
Qed.

(** The positions recorded for the blocks, and the union of all of them. *)
Lemma ranges_permutation M (n : nat) :
  Permutation
    (concat (map (x_range M) (seq 0 (S n)) ++ map (u_range M) (seq 0 n)))
    (seq 0 (n * stride M + nx M)).
Proof.
  induction n as [|n IH].
  - simpl. rewrite !app_nil_r. reflexivity.
  - rewrite concat_app in IH |- *.
    rewrite (seq_S (S n)), map_app, concat_app.
    set (cx := concat (map (x_range M) (seq 0 (S n)))) in *.
    rewrite (seq_S n), map_app, concat_app.
    cbn [map concat]. rewrite !app_nil_r.
    replace (S n * stride M + nx M)
      with ((n * stride M + nx M) + (nu M + nx M)) by (unfold stride; lia).
    rewrite (seq_app (n * stride M + nx M)), (seq_app (nu M)).
    rewrite <- IH. rewrite <- !app_assoc. apply Permutation_app_head.
    replace (0 + (n * stride M + nx M) + nu M) with (S n * stride M)
      by (unfold stride; lia).
    change (seq (0 + (n * stride M + nx M)) (nu M)) with (u_range M n).
    change (seq (S n * stride M) (nx M)) with (x_range M (S n)).
    change (0 + S n) with (S n). change (0 + n) with n.
    rewrite (app_assoc (concat (map (u_range M) (seq 0 n)))).
    apply Permutation_app_comm.
Qed.

Lemma nth_error_map_seq_inv (A : Type) (fx : nat -> A) (n k : nat) (r : A) :
  nth_error (map fx (seq 0 n)) k = Some r -> k < n /\ r = fx k.
Proof.
  intros H. destruct (Nat.lt_ge_cases k n) as [Hlt|Hge].
  - rewrite nth_error_map_seq in H by assumption.
    split; [assumption | congruence].
  - assert (E : nth_error (map fx (seq 0 n)) k = None).
    { apply nth_error_None. now rewrite length_map, length_seq. }
    congruence.
Qed.

Lemma in_map_seq_inv (A : Type) (fx : nat -> A) (n : nat) (r : A) :
  In r (map fx (seq 0 n)) -> exists k, k < n /\ r = fx k.
Proof.
  intros H. apply in_map_iff in H. destruct H as (k & E & Hin).
  apply in_seq in Hin. exists k. split; [lia | congruence].
Qed.

(** Bounds and guesses: one vector per state block, one per control
    block, concatenated. *)
Lemma const_layout_slices M (n : nat) (bx bu : vec) :
  length bx = nx M -> length bu = nu M ->
  length (concat (layout_from (fun _ => bx) (fun _ => bu) 0 n))
    = n * stride M + nx M /\
  (forall k, k <= n ->
     map (nth_error (concat (layout_from (fun _ => bx) (fun _ => bu) 0 n)))
       (x_range M k) = map Some bx) /\
  (forall k, k < n ->
     map (nth_error (concat (layout_from (fun _ => bx) (fun _ => bu) 0 n)))
       (u_range M k) = map Some bu).
Proof.
  intros Hx Hu. unfold vec in *. split; [|split].
  - apply (concat_layout_length (fun _ => bx) (fun _ => bu));
      intros _; assumption.
  - intros k Hk.
    destruct (@concat_layout_x _ (fun _ : nat => bx) (fun _ : nat => bu)
                (nx M) (nu M) (fun _ => Hx) (fun _ => Hu) n 0 k Hk)
      as (pre & post & E & Hlen).
    rewrite E. unfold x_range, stride. rewrite <- Hlen, <- Hx.
    apply slice_positions.
  - intros k Hk.
    destruct (@concat_layout_u _ (fun _ : nat => bx) (fun _ : nat => bu)
                (nx M) (nu M) (fun _ => Hx) (fun _ => Hu) n 0 k Hk)
      as (pre & post & E & Hlen).
    rewrite E. unfold u_range, stride. rewrite <- Hlen, <- Hu.
    apply slice_positions.
Qed.

(** ** Values of the symbols under a decision vector *)

Lemma bind_input_x M (m a k : nat) (vv : vec) :
  k <= m ->
  bind_input M (layout_from SymX SymU a m) vv (SymX (a + k))
  = firstn (nx M) (skipn (k * stride M) vv).
Proof.
  revert a k vv. induction m as [|m IH]; intros a k vv Hk.
  - assert (k = 0) by lia. subst k. unfold layout_from. simpl.
    now rewrite Nat.eqb_refl.
  - rewrite layout_from_S. destruct k as [|k].
    + simpl. now rewrite Nat.add_0_r, Nat.eqb_refl.
    + cbn [bind_input sym_eqb sym_size].
      destruct (Nat.eqb_spec (a + S k) a) as [E|_]; [lia|].
      replace (a + S k) with (S a + k) by lia.
      rewrite IH by lia. rewrite !skipn_skipn. do 2 f_equal.
      unfold stride. lia.
Qed.

Lemma bind_input_u M (m a k : nat) (vv : vec) :
  k < m ->
  bind_input M (layout_from SymX SymU a m) vv (SymU (a + k))
  = firstn (nu M) (skipn (k * stride M + nx M) vv).
Proof.
  revert a k vv. induction m as [|m IH]; intros a k vv Hk; [lia|].
  rewrite layout_from_S. destruct k as [|k].
  - simpl. now rewrite Nat.add_0_r, Nat.eqb_refl.
  - cbn [bind_input sym_eqb sym_size].
    destruct (Nat.eqb_spec (a + S k) a) as [E|_]; [lia|].
    replace (a + S k) with (S a + k) by lia.
    rewrite IH by lia. rewrite !skipn_skipn. do 2 f_equal.
    unfold stride. lia.
Qed.

Lemma bind_input_blocks M c (vv : vec) (k : nat) :
  (k <= Z.to_nat (nk c) ->
   bind_input M (v (transcription_of M c)) vv (SymX k) = x_block M k vv) /\
  (k < Z.to_nat (nk c) ->
   bind_input M (v (transcription_of M c)) vv (SymU k) = u_block M k vv).
Proof.
  split; intros Hk; cbn [transcription_of v alloc_final a_v].
  - apply (@bind_input_x M (Z.to_nat (nk c)) 0 k vv Hk).
  - apply (@bind_input_u M (Z.to_nat (nk c)) 0 k vv Hk).
Qed.

(** ** The accumulated cost *)

Lemma J_upto_sum (integ : vec -> vec -> vec * F) (k : nat) (e : env) :
  J_upto integ k e
  = sum_from_zero
      (map (fun i => snd (integ (e (SymX i)) (e (SymU i)))) (seq 0 k)).
Proof.
  induction k as [|k IH]; [reflexivity|].
  rewrite seq_S, map_app. unfold sum_from_zero in *.
  rewrite fold_left_app. simpl. now rewrite <- IH.
Qed.

Lemma J_upto_ext (integ : vec -> vec -> vec * F) (k : nat) (e e' : env) :
  (forall i, i < k -> e (SymX i) = e' (SymX i) /\ e (SymU i) = e' (SymU i)) ->
  J_upto integ k e = J_upto integ k e'.
Proof.
  induction k as [|k IH]; intros Hagree; [reflexivity|].
  simpl. rewrite IH by (intros i Hi; apply Hagree; lia).
  destruct (Hagree k) as [-> ->]; [lia | reflexivity].
Qed.

(** ** Claims on the integrator *)

(** Claim C4.  For [nk >= 1] and [nj >= 1] the script builds its integrator
    with the step [h = dt/nj], [dt = tf/nk], and the interval map is the
    [nj]-th term of the RK4 recurrence of the design document: it starts
    from [(x_start, 0)], every sub-step evaluates the four stages of [f]
    and of [L] and adds [h/6*(k1 + 2*k2 + 2*k3 + k4)] to the state and to
    the accumulated cost, and the pair after [nj] sub-steps is returned. *)
Theorem integrator_is_rk4_recurrence M c :
  (1 <= nk c)%Z -> (1 <= nj c)%Z ->
  exists T,
    transcribe M c = Ok T /\
    dt T = div (tf c) (of_int (nk c)) /\
    h T = div (dt T) (of_int (nj c)) /\
    forall x_start u,
      integ T x_start u
      = rk4_seq_spec (ode_f M) (quad_L M) (h T) x_start u (Z.to_nat (nj c)).
Proof.
  intros Hnk Hnj. exists (transcription_of M c).
  split; [apply transcribe_ok; lia|].
  split; [reflexivity|]. split; [reflexivity|].
  intros x_start u. apply integrator_seq.
Qed.

(** Claim C10.  The state returned by the interval map does not depend on
    the running cost: the integrators built from [(f, L)] and from
    [(f, L')] return the same [x_end] for every start state and control. *)
Theorem integrator_state_independent_of_cost
  (f : vec -> vec -> vec) (L L' : vec -> vec -> F) (h : F) (nj : Z)
  (x_start u : vec) :
  fst (integrator (ode_fcn f L) h nj x_start u)
  = fst (integrator (ode_fcn f L') h nj x_start u).
Proof.
  rewrite !integrator_seq. apply rk4_seq_state_only.
Qed.

(** ** Claims on the layout *)

(** Claim C3.  For [nk >= 1] the layout has
    [nv = (nk+1)*nx + nk*nu]; the index map holds [nk+1] state ranges, the
    [k]-th being the [nx] consecutive positions from [k*(nx+nu)], and [nk]
    control ranges, the [k]-th being the [nu] consecutive positions from
    [k*(nx+nu)+nx]; all ranges together hold every position of [0..nv-1]
    exactly once. *)
Theorem layout_partitions_decision_vector M c :
  (1 <= nk c)%Z -> nj c <> 0%Z ->
  exists T,
    transcribe M c = Ok T /\
    nv T = (Z.to_nat (nk c) + 1) * nx M + Z.to_nat (nk c) * nu M /\
    length (vind_x T) = Z.to_nat (nk c) + 1 /\
    length (vind_u T) = Z.to_nat (nk c) /\
    (forall k r, nth_error (vind_x T) k = Some r ->
       r = seq (k * (nx M + nu M)) (nx M)) /\
    (forall k r, nth_error (vind_u T) k = Some r ->
       r = seq (k * (nx M + nu M) + nx M) (nu M)) /\
    Permutation (concat (vind_x T ++ vind_u T)) (seq 0 (nv T)) /\
    NoDup (concat (vind_x T ++ vind_u T)) /\
    (forall i, In i (concat (vind_x T ++ vind_u T)) <-> i < nv T).
Proof.
  intros Hnk Hnj. exists (transcription_of M c).
  split; [now apply transcribe_ok|].
  cbn [transcription_of nv vind_x vind_u alloc_final a_nv a_vind_x a_vind_u].
  set (n := Z.to_nat (nk c)).
  assert (HP := ranges_permutation M n).
  split; [unfold stride; lia|].
  split; [rewrite length_map, length_seq; lia|].
  split; [now rewrite length_map, length_seq|].
  split; [intros k r H; now apply nth_error_map_seq_inv in H|].
  split; [intros k r H; now apply nth_error_map_seq_inv in H|].
  split; [exact HP|].
  split.
  - apply (Permutation_NoDup (Permutation_sym HP)), seq_NoDup.
  - intros i. split; intros H.
    + apply (Permutation_in _ HP) in H. apply in_seq in H. lia.
    + apply (Permutation_in _ (Permutation_sym HP)), in_seq. lia.
Qed.

(** Claim C6.  When the bounds and guesses of the model have the sizes of
    [x] and [u], the vectors [lbv], [ubv], [v0] have length [nv], and at
    the positions of each of the [nk+1] state ranges they hold [lbx],
    [ubx], [x0], at those of each of the [nk] control ranges [lbu], [ubu],
    [u0]. *)
Theorem bounds_and_guess_follow_layout M c :
  (1 <= nk c)%Z -> nj c <> 0%Z ->
  length (lbx M) = nx M -> length (ubx M) = nx M -> length (x0 M) = nx M ->
  length (lbu M) = nu M -> length (ubu M) = nu M -> length (u0 M) = nu M ->
  exists T,
    transcribe M c = Ok T /\
    length (lbv T) = nv T /\ length (ubv T) = nv T /\ length (v0 T) = nv T /\
    length (vind_x T) = Z.to_nat (nk c) + 1 /\
    length (vind_u T) = Z.to_nat (nk c) /\
    (forall r, In r (vind_x T) ->
       map (nth_error (lbv T)) r = map Some (lbx M) /\
       map (nth_error (ubv T)) r = map Some (ubx M) /\
       map (nth_error (v0 T)) r = map Some (x0 M)) /\
    (forall r, In r (vind_u T) ->
       map (nth_error (lbv T)) r = map Some (lbu M) /\
       map (nth_error (ubv T)) r = map Some (ubu M) /\
       map (nth_error (v0 T)) r = map Some (u0 M)).
Proof.
  intros Hnk Hnj Hlbx Hubx Hx0 Hlbu Hubu Hu0.
  exists (transcription_of M c).
  split; [now apply transcribe_ok|].
  cbn [transcription_of nv vind_x vind_u lbv ubv v0 alloc_final
       a_nv a_vind_x a_vind_u a_lbv a_ubv a_v0].
  set (n := Z.to_nat (nk c)).
  destruct (@const_layout_slices M n _ _ Hlbx Hlbu) as (Ll & Lx & Lu).
  destruct (@const_layout_slices M n _ _ Hubx Hubu) as (Ul & Ux & Uu).
  destruct (@const_layout_slices M n _ _ Hx0 Hu0) as (Gl & Gx & Gu).
  repeat split; try assumption.
  - rewrite length_map, length_seq. lia.
  - now rewrite length_map, length_seq.
  - apply in_map_seq_inv in H. destruct H as (k & Hk & ->). apply Lx. lia.
  - apply in_map_seq_inv in H. destruct H as (k & Hk & ->). apply Ux. lia.
  - apply in_map_seq_inv in H. destruct H as (k & Hk & ->). apply Gx. lia.
  - apply in_map_seq_inv in H. destruct H as (k & Hk & ->). now apply Lu.
  - apply in_map_seq_inv in H. destruct H as (k & Hk & ->). now apply Uu.
  - apply in_map_seq_inv in H. destruct H as (k & Hk & ->). now apply Gu.
Qed.

(** ** Claims on the objective and the constraints *)

(** Claim C5.  For [nk >= 1] the objective is the sum, accumulated from
    zero in the order of the intervals [k = 0..nk-1], of the cost
    increments that the one integrator returns at the state symbol and the
    control symbol of interval [k]; at a decision vector these are its
    [k]-th state block and control block. *)
Theorem objective_is_sum_of_interval_costs M c :
  (1 <= nk c)%Z -> nj c <> 0%Z ->
  exists T,
    transcribe M c = Ok T /\
    (forall e : env,
       J T e = sum_from_zero
                 (map (fun k => snd (integ T (e (SymX k)) (e (SymU k))))
                      (seq 0 (Z.to_nat (nk c))))) /\
    (forall vv : vec,
       fst (nlp M T vv)
       = sum_from_zero
           (map (fun k => snd (integ T (x_block M k vv) (u_block M k vv)))
                (seq 0 (Z.to_nat (nk c))))).
Proof.
  intros Hnk Hnj. exists (transcription_of M c).
  split; [now apply transcribe_ok|]. split.
  - intros e. apply J_upto_sum.
  - intros vv. unfold nlp. cbn [fst].
    change (J (transcription_of M c))
      with (J_upto (integ (transcription_of M c)) (Z.to_nat (nk c))).
    rewrite J_upto_sum. f_equal. apply map_ext_in. intros k Hk.
    apply in_seq in Hk.
    destruct (bind_input_blocks M c vv k) as [Hx Hu].
    rewrite Hx, Hu by lia. reflexivity.
Qed.

(** ** Sizes *)

Lemma length_zip_with (op : F -> F -> F) (a b : vec) :
  length (zip_with op a b) = Nat.min (length a) (length b).
Proof.
  revert b. induction a as [|x a IH]; intros [|y b]; simpl; auto.
Qed.

Lemma rk4_stage_length (f : vec -> vec -> vec) (L : vec -> vec -> F) (h : F)
  (u xj : vec) (Lj : F) (n : nat) :
  (forall x w, length x = n -> length (f x w) = n) ->
  length xj = n ->
  length (fst (rk4_stage_spec f L h u xj Lj)) = n.
Proof.
  intros Hf Hx. unfold rk4_stage_spec. cbn [fst].
  assert (Hadd : forall a b : vec,
             length a = n -> length b = n -> length (vadd a b) = n).
  { intros a b Ha Hb. unfold vadd.
    rewrite length_zip_with, Ha, Hb. apply Nat.min_id. }
  assert (Hsc : forall (s : F) (a : vec),
             length a = n -> length (vscale s a) = n).
  { intros s a Ha. unfold vscale. now rewrite length_map. }
  auto 20.
Qed.

Lemma integrator_length (f : vec -> vec -> vec) (L : vec -> vec -> F) (h : F)
  (nj : Z) (x_start u : vec) (n : nat) :
  (forall x w, length x = n -> length (f x w) = n) ->
  length x_start = n ->
  length (fst (integrator (ode_fcn f L) h nj x_start u)) = n.
Proof.
  intros Hf Hx. rewrite integrator_seq.
  induction (Z.to_nat nj) as [|j IH]; [exact Hx|].
  simpl. destruct (rk4_seq_spec f L h x_start u j) as [xj Lj].
  now apply rk4_stage_length.
Qed.

Lemma x_block_length M (n k : nat) (vv : vec) :
  length vv = n * stride M + nx M -> k <= n ->
  length (x_block M k vv) = nx M.
Proof.
  intros Hlen Hk. unfold x_block.
  rewrite length_firstn, length_skipn, Hlen.
  assert (k * stride M <= n * stride M) by now apply Nat.mul_le_mono_r.
  lia.
Qed.

Lemma eqs_transcription_of M c :
  eqs (transcription_of M c)
  = init_mx M
    :: map (defect_mx M (integ (transcription_of M c)))
         (seq 0 (Z.to_nat (nk c) - 1)).
Proof.
  cbn [transcription_of eqs nlp_upto snd app].
  now replace (Nat.min (Z.to_nat (nk c)) (Z.to_nat (nk c) - 1))
    with (Z.to_nat (nk c) - 1) by lia.
Qed.

Lemma g_transcription_of M c :
  g (transcription_of M c) = mx_vertcat (eqs (transcription_of M c)).
Proof. reflexivity. Qed.

Lemma size1_vertcat_defects M (integ : vec -> vec -> vec * F)
  (ks : list nat) :
  size1 (mx_vertcat (map (defect_mx M integ) ks)) = length ks * nx M.
Proof.
  induction ks as [|k ks IH]; [reflexivity|].
  cbn [mx_vertcat size1 map fold_right] in *. rewrite IH.
  cbn [defect_mx mx_sub size1 length]. lia.
Qed.

Lemma length_concat_blocks (A B : Type) (val : A -> list B) (l : list A)
  (n : nat) :
  (forall m, In m l -> length (val m) = n) ->
  length (concat (map val l)) = length l * n.
Proof.
  induction l as [|m l IH]; intros H; [reflexivity|].
  cbn [map concat length]. rewrite length_app, H by now left.
  rewrite IH by (intros m' Hm'; apply H; now right). lia.
Qed.

Lemma agree_upto_block (l l' : vec) (a m b : nat) :
  (forall i, i < b -> nth_error l i = nth_error l' i) ->
  a + m <= b ->
  firstn m (skipn a l) = firstn m (skipn a l').
Proof.
  intros Hagree Hle. apply nth_error_ext. intros i.
  rewrite !nth_error_firstn, !nth_error_skipn.
  destruct (Nat.ltb_spec i m); [apply Hagree; lia | reflexivity].
Qed.

Lemma eval_defect_ext M (integ : vec -> vec -> vec * F) (k : nat)
  (e e' : env) :
  e (SymX k) = e' (SymX k) -> e (SymU k) = e' (SymU k) ->
  e (SymX (S k)) = e' (SymX (S k)) ->
  eval (defect_mx M integ k) e = eval (defect_mx M integ k) e'.
Proof.
  intros Hx Hu Hn. cbn [defect_mx mx_sub mx_sym eval].
  now rewrite Hx, Hu, Hn.
Qed.

(** Claim C2.  For [nk >= 1] and an initial-condition residual of [nx]
    rows, the constraint list is the initial-condition block, first,
    followed by [nk-1] continuity blocks of [nx] rows, the [k]-th of them
    being the state predicted from the symbols of interval [k] minus the
    state symbol of node [k+1]; the constraint vector [g] has [nx*nk]
    rows, evaluates to a vector of that length whose first [nx] entries
    are [I] at the first state block, and its lower and upper bounds are
    [nx*nk] zeros. *)
Theorem constraints_count_and_bounds M c :
  (1 <= nk c)%Z -> nj c <> 0%Z ->
  nI M = nx M ->
  (forall x, length x = nx M -> length (init_I M x) = nx M) ->
  (forall x u, length x = nx M -> length (ode_f M x u) = nx M) ->
  exists T,
    transcribe M c = Ok T /\
    (exists m0 rest,
       eqs T = m0 :: rest /\
       size1 m0 = nx M /\
       (forall e : env, eval m0 e = init_I M (e (SymX 0))) /\
       length rest = Z.to_nat (nk c) - 1 /\
       (forall m, In m rest -> size1 m = nx M) /\
       (forall k, k + 1 < Z.to_nat (nk c) ->
          exists m,
            nth_error rest k = Some m /\
            forall e : env,
              eval m e
              = vsub (fst (integ T (e (SymX k)) (e (SymU k))))
                     (e (SymX (k + 1))))) /\
    g T = mx_vertcat (eqs T) /\
    size1 (g T) = nx M * Z.to_nat (nk c) /\
    lbg T = repeat (of_int 0) (nx M * Z.to_nat (nk c)) /\
    ubg T = repeat (of_int 0) (nx M * Z.to_nat (nk c)) /\
    (forall vv : vec,
       length vv = nv T ->
       length (snd (nlp M T vv)) = nx M * Z.to_nat (nk c) /\
       firstn (nx M) (snd (nlp M T vv)) = init_I M (x_block M 0 vv)).
Proof.
  intros Hnk Hnj HnI HI Hf. exists (transcription_of M c).
  split; [now apply transcribe_ok|].
  set (n := Z.to_nat (nk c)).
  assert (Hsize : size1 (g (transcription_of M c)) = nx M * n).
  { rewrite g_transcription_of, eqs_transcription_of. fold n.
    change (size1 (mx_vertcat (?a :: ?l)))
      with (size1 a + size1 (mx_vertcat l)).
    rewrite size1_vertcat_defects, length_seq.
    cbn [init_mx size1]. rewrite HnI. nia. }
  split.
  { exists (init_mx M),
      (map (defect_mx M (integ (transcription_of M c))) (seq 0 (n - 1))).
    split; [apply eqs_transcription_of|].
    split; [exact HnI|]. split; [reflexivity|].
    split; [now rewrite length_map, length_seq|].
    split.
    - intros m Hm. apply in_map_iff in Hm. destruct Hm as (k & <- & _).
      reflexivity.
    - intros k Hk.
      exists (defect_mx M (integ (transcription_of M c)) k). split.
      + apply nth_error_map_seq. lia.
      + intros e. now rewrite Nat.add_1_r. }
  split; [reflexivity|]. split; [exact Hsize|].
  split; [cbn [lbg transcription_of]; now rewrite <- Hsize|].
  split; [cbn [ubg transcription_of]; now rewrite <- Hsize|].
  intros vv Hlen.
  cbn [transcription_of nv alloc_final a_nv] in Hlen. fold n in Hlen.
  assert (Hblk : forall k, k <= n ->
             bind_input M (v (transcription_of M c)) vv (SymX k)
             = x_block M k vv /\
             length (x_block M k vv) = nx M).
  { intros k Hk. split.
    - now apply bind_input_blocks.
    - now apply x_block_length with (n := n). }
  unfold nlp. cbn [snd].
  rewrite g_transcription_of, eqs_transcription_of. fold n.
  cbn [mx_vertcat eval map concat].
  cbn [init_mx eval]. destruct (Hblk 0) as [E0 L0]; [lia|]. rewrite E0.
  split.
  - rewrite length_app, HI by exact L0.
    rewrite length_concat_blocks with (n := nx M).
    + rewrite length_map, length_seq. nia.
    + intros m Hm. apply in_map_iff in Hm. destruct Hm as (k & <- & Hk).
      apply in_seq in Hk. cbn [defect_mx mx_sub mx_sym eval]. unfold vsub.
      rewrite length_zip_with.
      destruct (Hblk k) as [Ek Lk]; [lia|].
      destruct (Hblk (S k)) as [Es Ls]; [lia|].
      rewrite Ek, Es, Ls.
      cbn [transcription_of integ].
      rewrite integrator_length with (n := nx M); auto using Nat.min_id.
  - rewrite firstn_app, HI by exact L0.
    rewrite Nat.sub_diag, <- (HI _ L0), firstn_all. simpl.
    apply app_nil_r.
Qed.

(** Claim C1, as the script has it.  For [nk >= 1] the constraint list
    holds the continuity constraint of interval [k], with bounds [(0,0)],
    for every [k] with [k+1 < nk]; every entry of the list is the
    initial-condition block or one of those, so the list has [nk]
    blocks. *)
Theorem continuity_constraints_of_inner_intervals M c :
  (1 <= nk c)%Z -> nj c <> 0%Z ->
  exists T,
    transcribe M c = Ok T /\
    (forall k, k + 1 < Z.to_nat (nk c) -> has_continuity_constraint M T k) /\
    (forall m, In m (eqs T) ->
       m = init_mx M \/
       exists k, k + 1 < Z.to_nat (nk c) /\ m = defect_mx M (integ T) k) /\
    length (eqs T) = Z.to_nat (nk c) /\
    lbg T = repeat (of_int 0) (size1 (g T)) /\
    ubg T = repeat (of_int 0) (size1 (g T)).
Proof.
  intros Hnk Hnj. exists (transcription_of M c).
  split; [now apply transcribe_ok|].
  set (n := Z.to_nat (nk c)).
  split; [|split; [|split; [|split; reflexivity]]].
  - intros k Hk. unfold has_continuity_constraint.
    rewrite eqs_transcription_of. fold n.
    exists (defect_mx M (integ (transcription_of M c)) k).
    split; [|split].
    + right. apply in_map, in_seq. lia.
    + reflexivity.
    + intros e. now rewrite Nat.add_1_r.
  - rewrite eqs_transcription_of. fold n.
    intros m [<-|Hm]; [now left|]. right.
    apply in_map_iff in Hm. destruct Hm as (k & <- & Hk).
    apply in_seq in Hk. exists k. split; [lia | reflexivity].
  - rewrite eqs_transcription_of. fold n.
    cbn [length]. rewrite length_map, length_seq. lia.
Qed.

(** Claim C7.  For [nk >= 1], two decision vectors that agree at every
    position outside the range of the last state block give the same
    objective value and the same constraint values; the bounds of that
    block are [lbx] and [ubx]. *)
Theorem terminal_block_only_box_bounded M c :
  (1 <= nk c)%Z -> nj c <> 0%Z ->
  length (lbx M) = nx M -> length (ubx M) = nx M ->
  length (lbu M) = nu M -> length (ubu M) = nu M ->
  exists T r,
    transcribe M c = Ok T /\
    nth_error (vind_x T) (Z.to_nat (nk c)) = Some r /\
    length (vind_x T) = Z.to_nat (nk c) + 1 /\
    (forall vv vv' : vec,
       (forall i, ~ In i r -> nth_error vv i = nth_error vv' i) ->
       nlp M T vv = nlp M T vv') /\
    map (nth_error (lbv T)) r = map Some (lbx M) /\
    map (nth_error (ubv T)) r = map Some (ubx M).
Proof.
  intros Hnk Hnj Hlbx Hubx Hlbu Hubu.
  set (n := Z.to_nat (nk c)).
  exists (transcription_of M c), (x_range M n).
  split; [now apply transcribe_ok|].
  split; [cbn [transcription_of vind_x alloc_final a_vind_x];
          apply nth_error_map_seq; lia|].
  split; [cbn [transcription_of vind_x alloc_final a_vind_x];
          rewrite length_map, length_seq; lia|].
  split.
  - intros vv vv' Hagree.
    assert (Hlow : forall i, i < n * stride M ->
               nth_error vv i = nth_error vv' i).
    { intros i Hi. apply Hagree. unfold x_range. rewrite in_seq. lia. }
    assert (Hx : forall k, k < n ->
               bind_input M (v (transcription_of M c)) vv (SymX k)
               = bind_input M (v (transcription_of M c)) vv' (SymX k)).
    { intros k Hk.
      rewrite (proj1 (bind_input_blocks M c vv k)) by (unfold n in Hk; lia).
      rewrite (proj1 (bind_input_blocks M c vv' k)) by (unfold n in Hk; lia).
      unfold x_block.
      apply agree_upto_block with (b := n * stride M); [exact Hlow|].
      unfold stride. nia. }
    assert (Hu : forall k, k < n ->
               bind_input M (v (transcription_of M c)) vv (SymU k)
               = bind_input M (v (transcription_of M c)) vv' (SymU k)).
    { intros k Hk.
      rewrite (proj2 (bind_input_blocks M c vv k)) by (unfold n in Hk; lia).
      rewrite (proj2 (bind_input_blocks M c vv' k)) by (unfold n in Hk; lia).
      unfold u_block.
      apply agree_upto_block with (b := n * stride M); [exact Hlow|].
      unfold stride. nia. }
    unfold nlp. f_equal.
    + apply (@J_upto_ext (integ (transcription_of M c)) n).
      intros i Hi. split; [now apply Hx | now apply Hu].
    + rewrite g_transcription_of, eqs_transcription_of. fold n.
      cbn [mx_vertcat eval map concat]. f_equal.
      * cbn [init_mx eval]. rewrite Hx by lia. reflexivity.
      * f_equal. rewrite !map_map. apply map_ext_in. intros k Hk.
        apply in_seq in Hk.
        apply eval_defect_ext; [apply Hx | apply Hu | apply Hx]; lia.
  - cbn [transcription_of lbv ubv alloc_final a_lbv a_ubv].
    destruct (@const_layout_slices M n _ _ Hlbx Hlbu) as (_ & Lx & _).
    destruct (@const_layout_slices M n _ _ Hubx Hubu) as (_ & Ux & _).
    split; [apply Lx | apply Ux]; lia.
Qed.

(** ** Reading the solution *)

Lemma comprehension_ok (A : Type) (ks : list nat) (g : nat -> result A)
  (val : nat -> A) :
  (forall k, In k ks -> g k = Ok (val k)) ->
  comprehension ks g = Ok (map val ks).
Proof.
  induction ks as [|k ks IH]; intros H; [reflexivity|].
  simpl. rewrite (H k) by now left. cbn [bind].
  rewrite IH by (intros j Hj; apply H; now right). reflexivity.
Qed.

Lemma mx_getitem_ok (v_opt : vec) (idx : list nat) (line : nat) :
  (forall j, In j idx -> j < length v_opt) ->
  mx_getitem v_opt idx line
  = Ok (map (fun j => nth j v_opt (of_int 0)) idx).
Proof.
  intros H. unfold mx_getitem. apply comprehension_ok. intros j Hj.
  now rewrite (nth_error_nth' v_opt (of_int 0) (H j Hj)).
Qed.

Lemma component_opt_ok (start : nat -> nat) (len cnt : nat) (nz : Z)
  (i line : nat) (v_opt : vec) :
  Z.to_nat nz = cnt -> i < len ->
  (forall k, k < cnt -> start k + i < length v_opt) ->
  component_opt (map (fun k => seq (start k) len) (seq 0 cnt)) nz
    (Z.of_nat i) line v_opt
  = Ok (map (fun k => nth (start k + i) v_opt (of_int 0)) (seq 0 cnt)).
Proof.
  intros Hcnt Hi Hin. unfold component_opt, py_range. rewrite Hcnt.
  rewrite (@comprehension_ok _ _ _ (fun k => start k + i)).
  - cbn [bind]. rewrite mx_getitem_ok, map_map; [reflexivity|].
    intros j Hj. apply in_map_iff in Hj. destruct Hj as (k & <- & Hk).
    apply in_seq in Hk. apply Hin. lia.
  - intros k Hk. apply in_seq in Hk.
    rewrite (@py_index_nat _ _ _ _ (seq (start k) len)).
    + cbn [bind]. apply py_index_nat. rewrite nth_error_seq.
      destruct (Nat.ltb_spec i len); [reflexivity | lia].
    + apply (@nth_error_map_seq _ (fun k => seq (start k) len)). lia.
Qed.

Lemma samples_of_block (start : nat -> nat) (len cnt i : nat)
  (v_opt : vec) :
  i < len ->
  (forall k, k < cnt -> start k + i < length v_opt) ->
  samples_of (fun k => firstn len (skipn (start k) v_opt)) i cnt
    (map (fun k => nth (start k + i) v_opt (of_int 0)) (seq 0 cnt)).
Proof.
  intros Hi Hin. split.
  - now rewrite length_map, length_seq.
  - intros k Hk.
    rewrite (@nth_error_map_seq _
               (fun k => nth (start k + i) v_opt (of_int 0)) cnt k Hk).
    rewrite nth_error_firstn, nth_error_skipn.
    destruct (Nat.ltb_spec i len); [|lia].
    symmetry. apply nth_error_nth'. now apply Hin.
Qed.

Lemma linspace_length (start stop : F) (num : Z) :
  (2 <= num)%Z -> length (linspace start stop num) = Z.to_nat num.
Proof.
  intros Hnum. unfold linspace, py_range.
  destruct (Z.leb_spec num 0) as [H0|_]; [lia|].
  destruct (Z.eqb_spec num 1) as [H1|_]; [lia|].
  rewrite length_app, length_map, length_seq. cbn [length]. lia.
Qed.

Lemma linspace_nth (start stop : F) (num : Z) (k : nat) :
  (2 <= num)%Z -> k < Z.to_nat (num - 1) ->
  nth_error (linspace start stop num) k
  = Some (add (mul (of_int (Z.of_nat k))
                   (div (sub stop start) (of_int (num - 1))))
              start).
Proof.
  intros Hnum Hk. unfold linspace, py_range.
  destruct (Z.leb_spec num 0) as [H0|_]; [lia|].
  destruct (Z.eqb_spec num 1) as [H1|_]; [lia|].
  rewrite nth_error_app1 by now rewrite length_map, length_seq.
  now rewrite nth_error_map_seq by exact Hk.
Qed.

Lemma linspace_last (start stop : F) (num : Z) :
  (2 <= num)%Z ->
  nth_error (linspace start stop num) (Z.to_nat (num - 1)) = Some stop.
Proof.
  intros Hnum. unfold linspace, py_range.
  destruct (Z.leb_spec num 0) as [H0|_]; [lia|].
  destruct (Z.eqb_spec num 1) as [H1|_]; [lia|].
  rewrite nth_error_app2 by now rewrite length_map, length_seq.
  now rewrite length_map, length_seq, Nat.sub_diag.
Qed.

Lemma component_x_ok M c (v_opt : vec) (i line : nat) :
  (1 <= nk c)%Z -> i < nx M ->
  length v_opt = nv (transcription_of M c) ->
  exists l,
    component_opt (vind_x (transcription_of M c)) (nk c + 1) (Z.of_nat i)
      line v_opt = Ok l /\
    samples_of (fun k => x_block M k v_opt) i (Z.to_nat (nk c) + 1) l.
Proof.
  intros Hnk Hi Hlen.
  cbn [transcription_of nv vind_x alloc_final a_nv a_vind_x] in *.
  set (n := Z.to_nat (nk c)) in *.
  assert (Hin : forall k, k < n + 1 -> k * stride M + i < length v_opt).
  { intros k Hk. rewrite Hlen.
    assert (k * stride M <= n * stride M)
      by (apply Nat.mul_le_mono_r; lia).
    lia. }
  eexists. split.
  - unfold x_range. replace (S n) with (n + 1) by lia.
    apply (@component_opt_ok (fun k => k * stride M) (nx M) (n + 1));
      [lia | exact Hi | exact Hin].
  - apply (@samples_of_block (fun k => k * stride M) (nx M) (n + 1) i v_opt
             Hi Hin).
Qed.

Lemma component_u_ok M c (v_opt : vec) (i line : nat) :
  (1 <= nk c)%Z -> i < nu M ->
  length v_opt = nv (transcription_of M c) ->
  exists l,
    component_opt (vind_u (transcription_of M c)) (nk c) (Z.of_nat i)
      line v_opt = Ok l /\
    samples_of (fun k => u_block M k v_opt) i (Z.to_nat (nk c)) l.
Proof.
  intros Hnk Hi Hlen.
  cbn [transcription_of nv vind_u alloc_final a_nv a_vind_u] in *.
  set (n := Z.to_nat (nk c)) in *.
  assert (Hin : forall k, k < n -> k * stride M + nx M + i < length v_opt).
  { intros k Hk. rewrite Hlen.
    assert (S k * stride M <= n * stride M)
      by (apply Nat.mul_le_mono_r; lia).
    unfold stride in *. lia. }
  eexists. split.
  - unfold u_range.
    apply (@component_opt_ok (fun k => k * stride M + nx M) (nu M) n);
      [reflexivity | exact Hi | exact Hin].
  - apply (@samples_of_block (fun k => k * stride M + nx M) (nu M) n i v_opt
             Hi Hin).
Qed.

(** Claim C8.  For a solution vector of length [nv], reading component [i]
    of the state through the index map gives [nk+1] samples, the [i]-th
    entries of the state blocks in node order, and reading component [i]
    of the control gives [nk] samples, the [i]-th entries of the control
    blocks; every sample is an entry of the solution vector.  The script
    reads components 0 and 1 of the state and component 0 of the control,
    and pairs the state samples with the [nk+1] grid times: the time of
    node [k < nk] is [k*((tf - 0)/nk) + 0], which is [k*dt] when
    subtracting zero and adding zero change nothing, and the time of the
    last node is [tf]. *)
Theorem extraction_gives_node_samples M c :
  (1 <= nk c)%Z -> nj c <> 0%Z ->
  exists T,
    transcribe M c = Ok T /\
    forall v_opt : vec,
      length v_opt = nv T ->
      (forall i line, i < nx M ->
         exists l,
           component_opt (vind_x T) (nk c + 1) (Z.of_nat i) line v_opt = Ok l /\
           samples_of (fun k => x_block M k v_opt) i
             (Z.to_nat (nk c) + 1) l) /\
      (forall i line, i < nu M ->
         exists l,
           component_opt (vind_u T) (nk c) (Z.of_nat i) line v_opt = Ok l /\
           samples_of (fun k => u_block M k v_opt) i (Z.to_nat (nk c)) l) /\
      (1 <= nx M ->
         exists l, x0_opt c T v_opt = Ok l /\
           samples_of (fun k => x_block M k v_opt) 0
             (Z.to_nat (nk c) + 1) l) /\
      (2 <= nx M ->
         exists l, x1_opt c T v_opt = Ok l /\
           samples_of (fun k => x_block M k v_opt) 1
             (Z.to_nat (nk c) + 1) l) /\
      (1 <= nu M ->
         exists l, u_opt c T v_opt = Ok l /\
           samples_of (fun k => u_block M k v_opt) 0 (Z.to_nat (nk c)) l) /\
      length (tgrid c) = Z.to_nat (nk c) + 1 /\
      (forall k, k < Z.to_nat (nk c) ->
         nth_error (tgrid c) k
         = Some (add (mul (of_int (Z.of_nat k))
                          (div (sub (tf c) (of_int 0)) (of_int (nk c))))
                     (of_int 0))) /\
      nth_error (tgrid c) (Z.to_nat (nk c)) = Some (tf c) /\
      ((forall a : F, sub a (of_int 0) = a) ->
       (forall a : F, add a (of_int 0) = a) ->
       forall k, k < Z.to_nat (nk c) ->
         nth_error (tgrid c) k = Some (mul (of_int (Z.of_nat k)) (dt T))).
Proof.
  intros Hnk Hnj. exists (transcription_of M c).
  split; [now apply transcribe_ok|].
  intros v_opt Hlen.
  split; [intros i line Hi; now apply component_x_ok|].
  split; [intros i line Hi; now apply component_u_ok|].
  split; [intros Hx; apply (@component_x_ok M c v_opt 0 218); auto; lia|].
  split; [intros Hx; apply (@component_x_ok M c v_opt 1 219); auto; lia|].
  split; [intros Hu; apply (@component_u_ok M c v_opt 0 220); auto; lia|].
  assert (Hgrid : forall k, k < Z.to_nat (nk c) ->
            nth_error (tgrid c) k
            = Some (add (mul (of_int (Z.of_nat k))
                             (div (sub (tf c) (of_int 0)) (of_int (nk c))))
                        (of_int 0))).
  { intros k Hk. unfold tgrid. rewrite linspace_nth by lia.
    now rewrite Z.add_simpl_r. }
  split; [|split; [exact Hgrid|split]].
  - unfold tgrid. rewrite linspace_length by lia. lia.
  - unfold tgrid.
    replace (Z.to_nat (nk c)) with (Z.to_nat (nk c + 1 - 1)) by lia.
    apply linspace_last. lia.
  - intros Hsub Hadd k Hk. rewrite Hgrid by exact Hk.
    now rewrite Hsub, Hadd.
Qed.

(** ** Exceptions *)

Lemma never_raises_ok (A : Type) (e : pyexc) (a : A) :
  never_raises e (Ok a).
Proof. intros line H. discriminate H. Qed.

Lemma never_raises_bind (A B : Type) (e : pyexc) (r : result A)
  (k : A -> result B) :
  never_raises e r -> (forall a, never_raises e (k a)) ->
  never_raises e (bind r k).
Proof.
  intros Hr Hk. destruct r as [a|e' line']; simpl.
  - apply Hk.
  - intros line H. apply (Hr line). congruence.
Qed.

Lemma never_raises_for_each (St : Type) (e : pyexc) (ks : list nat)
  (body : nat -> St -> result St) (s : St) :
  (forall k s', never_raises e (body k s')) ->
  never_raises e (for_each ks body s).
Proof.
  intros Hbody. revert s. induction ks as [|k ks IH]; intros s; simpl.
  - apply never_raises_ok.
  - apply never_raises_bind; [apply Hbody | exact IH].
Qed.

Lemma never_raises_py_index (A : Type) (e : pyexc) (l : list A) (i : Z)
  (line : nat) :
  e <> IndexError -> never_raises e (py_index l i line).
Proof.
  intros He line' H. unfold py_index in H.
  destruct (_ <? 0)%Z in H; [congruence|].
  destruct (nth_error l _) in H; congruence.
Qed.

Lemma never_raises_py_div (e : pyexc) (a : F) (n : Z) (line : nat) :
  e <> ZeroDivisionError -> never_raises e (py_div a n line).
Proof.
  intros He line' H. unfold py_div in H.
  destruct (n =? 0)%Z in H; congruence.
Qed.

Lemma transcribe_raises_only_python_errors M c (e : pyexc) :
  e <> ZeroDivisionError -> e <> IndexError ->
  never_raises e (transcribe M c).
Proof.
  intros Hz Hi. unfold transcribe.
  apply never_raises_bind; [now apply never_raises_py_div | intros dt].
  apply never_raises_bind; [now apply never_raises_py_div | intros h].
  apply never_raises_bind.
  - unfold alloc_all. apply never_raises_bind.
    + apply never_raises_for_each. intros k s. unfold alloc_body.
      apply never_raises_bind.
      * unfold alloc_state, valloc.
        apply never_raises_bind; [now apply never_raises_py_index|].
        intros a. apply never_raises_ok.
      * intros a. unfold alloc_control, valloc.
        apply never_raises_bind; [now apply never_raises_py_index|].
        intros a'. apply never_raises_ok.
    + intros a. unfold alloc_state, valloc.
      apply never_raises_bind; [now apply never_raises_py_index|].
      intros a'. apply never_raises_ok.
  - intros a. apply never_raises_bind; [|intros; apply never_raises_ok].
    unfold nlp_all.
    apply never_raises_bind; [now apply never_raises_py_index|].
    intros xs. apply never_raises_for_each. intros k [J eq].
    unfold nlp_body.
    apply never_raises_bind; [now apply never_raises_py_index|]. intros xs'.
    apply never_raises_bind; [now apply never_raises_py_index|]. intros us.
    destruct (_ <? _)%Z; [|apply never_raises_ok].
    apply never_raises_bind; [now apply never_raises_py_index|].
    intros xn. apply never_raises_ok.
Qed.

(** Claim C9, as the script has it.  With [nk = 0] the script stops at
    line 107, [dt = tf/nk], with Python's [ZeroDivisionError], before the
    layout, the integrator and the constraints; with [nk < 0] (and
    [nj <> 0]) it goes on to the layout and stops at line 185, [xk[-1]] of
    an empty list, with [IndexError]; it never raises
    [ConfigurationError]. *)
Theorem invalid_nk_raises_python_errors M c :
  (nk c = 0%Z -> transcribe M c = Raise ZeroDivisionError 107) /\
  ((nk c < 0)%Z -> nj c <> 0%Z -> transcribe M c = Raise IndexError 185) /\
  never_raises ConfigurationError (transcribe M c).
Proof.
  split; [|split].
  - intros E. unfold transcribe, py_div. rewrite E. reflexivity.
  - intros Hneg Hnj. unfold transcribe, py_div.
    destruct (Z.eqb_spec (nk c) 0) as [E|_]; [lia|]. cbn [bind].
    destruct (Z.eqb_spec (nj c) 0) as [E|_]; [contradiction|]. cbn [bind].
    unfold alloc_all, py_range.
    replace (Z.to_nat (nk c + 1)) with 0 by lia.
    replace (Z.to_nat (nk c)) with 0 by lia.
    reflexivity.
  - apply transcribe_raises_only_python_errors; discriminate.
Qed.

End Properties.

(** ** The statements above at the two-state model, [nk = 2], [nj = 3] *)

Lemma integrator_is_rk4_recurrence_witness :
  ((1 <= nk sample_run)%Z) /\
  ((1 <= nj sample_run)%Z) /\
  exists T,
    transcribe sample_model sample_run = Ok T /\
    dt T = div (tf sample_run) (of_int (nk sample_run)) /\
    h T = div (dt T) (of_int (nj sample_run)) /\
    forall x_start u,
      integ T x_start u
      = rk4_seq_spec (ode_f sample_model) (quad_L sample_model) (h T) x_start u (Z.to_nat (nj sample_run)).
Proof.
  assert (H1 : (1 <= nk sample_run)%Z)
    by (simpl; lia).
  assert (H2 : (1 <= nj sample_run)%Z)
    by (simpl; lia).
  repeat (split; [assumption|]).
  exact (@integrator_is_rk4_recurrence Z Scalar_Z sample_model sample_run
           H1 H2).
Defined.

Lemma layout_partitions_decision_vector_witness :
  ((1 <= nk sample_run)%Z) /\
  (nj sample_run <> 0%Z) /\
  exists T,
    transcribe sample_model sample_run = Ok T /\
    nv T = (Z.to_nat (nk sample_run) + 1) * nx sample_model + Z.to_nat (nk sample_run) * nu sample_model /\
    length (vind_x T) = Z.to_nat (nk sample_run) + 1 /\
    length (vind_u T) = Z.to_nat (nk sample_run) /\
    (forall k r, nth_error (vind_x T) k = Some r ->
       r = seq (k * (nx sample_model + nu sample_model)) (nx sample_model)) /\
    (forall k r, nth_error (vind_u T) k = Some r ->
       r = seq (k * (nx sample_model + nu sample_model) + nx sample_model) (nu sample_model)) /\
    Permutation (concat (vind_x T ++ vind_u T)) (seq 0 (nv T)) /\
    NoDup (concat (vind_x T ++ vind_u T)) /\
    (forall i, In i (concat (vind_x T ++ vind_u T)) <-> i < nv T).
Proof.
  assert (H1 : (1 <= nk sample_run)%Z)
    by (simpl; lia).
  assert (H2 : nj sample_run <> 0%Z)
    by (simpl; discriminate).
  repeat (split; [assumption|]).
  exact (@layout_partitions_decision_vector Z Scalar_Z sample_model sample_run
           H1 H2).
Defined.

Lemma bounds_and_guess_follow_layout_witness :
  ((1 <= nk sample_run)%Z) /\
  (nj sample_run <> 0%Z) /\
  (length (lbx sample_model) = nx sample_model) /\
  (length (ubx sample_model) = nx sample_model) /\
  (length (x0 sample_model) = nx sample_model) /\
  (length (lbu sample_model) = nu sample_model) /\
  (length (ubu sample_model) = nu sample_model) /\
  (length (u0 sample_model) = nu sample_model) /\
  exists T,
    transcribe sample_model sample_run = Ok T /\
    length (lbv T) = nv T /\ length (ubv T) = nv T /\ length (v0 T) = nv T /\
    length (vind_x T) = Z.to_nat (nk sample_run) + 1 /\
    length (vind_u T) = Z.to_nat (nk sample_run) /\
    (forall r, In r (vind_x T) ->
       map (nth_error (lbv T)) r = map Some (lbx sample_model) /\
       map (nth_error (ubv T)) r = map Some (ubx sample_model) /\
       map (nth_error (v0 T)) r = map Some (x0 sample_model)) /\
    (forall r, In r (vind_u T) ->
       map (nth_error (lbv T)) r = map Some (lbu sample_model) /\
       map (nth_error (ubv T)) r = map Some (ubu sample_model) /\
       map (nth_error (v0 T)) r = map Some (u0 sample_model)).
Proof.
  assert (H1 : (1 <= nk sample_run)%Z)
    by (simpl; lia).
  assert (H2 : nj sample_run <> 0%Z)
    by (simpl; discriminate).
  assert (H3 : length (lbx sample_model) = nx sample_model)
    by (reflexivity).
  assert (H4 : length (ubx sample_model) = nx sample_model)
    by (reflexivity).
  assert (H5 : length (x0 sample_model) = nx sample_model)
    by (reflexivity).
  assert (H6 : length (lbu sample_model) = nu sample_model)
    by (reflexivity).
  assert (H7 : length (ubu sample_model) = nu sample_model)
    by (reflexivity).
  assert (H8 : length (u0 sample_model) = nu sample_model)
    by (reflexivity).
  repeat (split; [assumption|]).
  exact (@bounds_and_guess_follow_layout Z Scalar_Z sample_model sample_run
           H1 H2 H3 H4 H5 H6 H7 H8).
Defined.

Lemma objective_is_sum_of_interval_costs_witness :
  ((1 <= nk sample_run)%Z) /\
  (nj sample_run <> 0%Z) /\
  exists T,
    transcribe sample_model sample_run = Ok T /\
    (forall e : sym -> list Z,
       J T e = sum_from_zero
                 (map (fun k => snd (integ T (e (SymX k)) (e (SymU k))))
                      (seq 0 (Z.to_nat (nk sample_run))))) /\
    (forall vv : list Z,
       fst (nlp sample_model T vv)
       = sum_from_zero
           (map (fun k => snd (integ T (x_block sample_model k vv) (u_block sample_model k vv)))
                (seq 0 (Z.to_nat (nk sample_run))))).
Proof.
  assert (H1 : (1 <= nk sample_run)%Z)
    by (simpl; lia).
  assert (H2 : nj sample_run <> 0%Z)
    by (simpl; discriminate).
  repeat (split; [assumption|]).
  exact (@objective_is_sum_of_interval_costs Z Scalar_Z sample_model sample_run
           H1 H2).
Defined.

Lemma constraints_count_and_bounds_witness :
  ((1 <= nk sample_run)%Z) /\
  (nj sample_run <> 0%Z) /\
  (nI sample_model = nx sample_model) /\
  ((forall x, length x = nx sample_model -> length (init_I sample_model x) = nx sample_model)) /\
  ((forall x u, length x = nx sample_model -> length (ode_f sample_model x u) = nx sample_model)) /\
  exists T,
    transcribe sample_model sample_run = Ok T /\
    (exists m0 rest,
       eqs T = m0 :: rest /\
       size1 m0 = nx sample_model /\
       (forall e : sym -> list Z, eval m0 e = init_I sample_model (e (SymX 0))) /\
       length rest = Z.to_nat (nk sample_run) - 1 /\
       (forall m, In m rest -> size1 m = nx sample_model) /\
       (forall k, k + 1 < Z.to_nat (nk sample_run) ->
          exists m,
            nth_error rest k = Some m /\
            forall e : sym -> list Z,
              eval m e
              = vsub (fst (integ T (e (SymX k)) (e (SymU k))))
                     (e (SymX (k + 1))))) /\
    g T = mx_vertcat (eqs T) /\
    size1 (g T) = nx sample_model * Z.to_nat (nk sample_run) /\
    lbg T = repeat (of_int 0) (nx sample_model * Z.to_nat (nk sample_run)) /\
    ubg T = repeat (of_int 0) (nx sample_model * Z.to_nat (nk sample_run)) /\
    (forall vv : list Z,
       length vv = nv T ->
       length (snd (nlp sample_model T vv)) = nx sample_model * Z.to_nat (nk sample_run) /\
       firstn (nx sample_model) (snd (nlp sample_model T vv)) = init_I sample_model (x_block sample_model 0 vv)).
Proof.
  assert (H1 : (1 <= nk sample_run)%Z)
    by (simpl; lia).
  assert (H2 : nj sample_run <> 0%Z)
    by (simpl; discriminate).
  assert (H3 : nI sample_model = nx sample_model)
    by (reflexivity).
  assert (H4 : (forall x, length x = nx sample_model -> length (init_I sample_model x) = nx sample_model))
    by (reflexivity).
  assert (H5 : (forall x u, length x = nx sample_model -> length (ode_f sample_model x u) = nx sample_model))
    by (reflexivity).
  repeat (split; [assumption|]).
  exact (@constraints_count_and_bounds Z Scalar_Z sample_model sample_run
           H1 H2 H3 H4 H5).
Defined.

Lemma continuity_constraints_of_inner_intervals_witness :
  ((1 <= nk sample_run)%Z) /\
  (nj sample_run <> 0%Z) /\
  exists T,
    transcribe sample_model sample_run = Ok T /\
    (forall k, k + 1 < Z.to_nat (nk sample_run) -> has_continuity_constraint sample_model T k) /\
    (forall m, In m (eqs T) ->
       m = init_mx sample_model \/
       exists k, k + 1 < Z.to_nat (nk sample_run) /\ m = defect_mx sample_model (integ T) k) /\
    length (eqs T) = Z.to_nat (nk sample_run) /\
    lbg T = repeat (of_int 0) (size1 (g T)) /\
    ubg T = repeat (of_int 0) (size1 (g T)).
Proof.
  assert (H1 : (1 <= nk sample_run)%Z)
    by (simpl; lia).
  assert (H2 : nj sample_run <> 0%Z)
    by (simpl; discriminate).
  repeat (split; [assumption|]).
  exact (@continuity_constraints_of_inner_intervals Z Scalar_Z sample_model sample_run
           H1 H2).
Defined.

Lemma terminal_block_only_box_bounded_witness :
  ((1 <= nk sample_run)%Z) /\
  (nj sample_run <> 0%Z) /\
  (length (lbx sample_model) = nx sample_model) /\
  (length (ubx sample_model) = nx sample_model) /\
  (length (lbu sample_model) = nu sample_model) /\
  (length (ubu sample_model) = nu sample_model) /\
  exists T r,
    transcribe sample_model sample_run = Ok T /\
    nth_error (vind_x T) (Z.to_nat (nk sample_run)) = Some r /\
    length (vind_x T) = Z.to_nat (nk sample_run) + 1 /\
    (forall vv vv' : list Z,
       (forall i, ~ In i r -> nth_error vv i = nth_error vv' i) ->
       nlp sample_model T vv = nlp sample_model T vv') /\
    map (nth_error (lbv T)) r = map Some (lbx sample_model) /\
    map (nth_error (ubv T)) r = map Some (ubx sample_model).
Proof.
  assert (H1 : (1 <= nk sample_run)%Z)
    by (simpl; lia).
  assert (H2 : nj sample_run <> 0%Z)
    by (simpl; discriminate).
  assert (H3 : length (lbx sample_model) = nx sample_model)
    by (reflexivity).
  assert (H4 : length (ubx sample_model) = nx sample_model)
    by (reflexivity).
  assert (H5 : length (lbu sample_model) = nu sample_model)
    by (reflexivity).
  assert (H6 : length (ubu sample_model) = nu sample_model)
    by (reflexivity).
  repeat (split; [assumption|]).
  exact (@terminal_block_only_box_bounded Z Scalar_Z sample_model sample_run
           H1 H2 H3 H4 H5 H6).
Defined.

Lemma extraction_gives_node_samples_witness :
  ((1 <= nk sample_run)%Z) /\
  (nj sample_run <> 0%Z) /\
  exists T,
    transcribe sample_model sample_run = Ok T /\
    forall v_opt : list Z,
      length v_opt = nv T ->
      (forall i line, i < nx sample_model ->
         exists l,
           component_opt (vind_x T) (nk sample_run + 1) (Z.of_nat i) line v_opt = Ok l /\
           samples_of (fun k => x_block sample_model k v_opt) i
             (Z.to_nat (nk sample_run) + 1) l) /\
      (forall i line, i < nu sample_model ->
         exists l,
           component_opt (vind_u T) (nk sample_run) (Z.of_nat i) line v_opt = Ok l /\
           samples_of (fun k => u_block sample_model k v_opt) i (Z.to_nat (nk sample_run)) l) /\
      (1 <= nx sample_model ->
         exists l, x0_opt sample_run T v_opt = Ok l /\
           samples_of (fun k => x_block sample_model k v_opt) 0
             (Z.to_nat (nk sample_run) + 1) l) /\
      (2 <= nx sample_model ->
         exists l, x1_opt sample_run T v_opt = Ok l /\
           samples_of (fun k => x_block sample_model k v_opt) 1
             (Z.to_nat (nk sample_run) + 1) l) /\
      (1 <= nu sample_model ->
         exists l, u_opt sample_run T v_opt = Ok l /\
           samples_of (fun k => u_block sample_model k v_opt) 0 (Z.to_nat (nk sample_run)) l) /\
      length (tgrid sample_run) = Z.to_nat (nk sample_run) + 1 /\
      (forall k, k < Z.to_nat (nk sample_run) ->
         nth_error (tgrid sample_run) k
         = Some (add (mul (of_int (Z.of_nat k))
                          (div (sub (tf sample_run) (of_int 0)) (of_int (nk sample_run))))
                     (of_int 0))) /\
      nth_error (tgrid sample_run) (Z.to_nat (nk sample_run)) = Some (tf sample_run) /\
      ((forall a : Z, sub a (of_int 0) = a) ->
       (forall a : Z, add a (of_int 0) = a) ->
       forall k, k < Z.to_nat (nk sample_run) ->
         nth_error (tgrid sample_run) k = Some (mul (of_int (Z.of_nat k)) (dt T))).
Proof.
  assert (H1 : (1 <= nk sample_run)%Z)
    by (simpl; lia).
  assert (H2 : nj sample_run <> 0%Z)
    by (simpl; discriminate).
  repeat (split; [assumption|]).
  exact (@extraction_gives_node_samples Z Scalar_Z sample_model sample_run
           H1 H2).
Defined.

(** ** Concrete runs *)

Example sample_layout :
  exists T,
    transcribe sample_model (sample_config 2 1) = Ok T /\
    v T = [SymX 0; SymU 0; SymX 1; SymU 1; SymX 2] /\
    nv T = 8 /\
    vind_x T = [[0; 1]; [3; 4]; [6; 7]] /\
    vind_u T = [[2]; [5]] /\
    lbv T = [-5; -7; -3; -5; -7; -3; -5; -7]%Z /\
    size1 (g T) = 4 /\
    lbg T = [0; 0; 0; 0]%Z.
Proof.
  eexists. split; [reflexivity|]. repeat split.
Qed.

Example sample_nlp_value :
  exists T,
    transcribe sample_model (sample_config 2 1) = Ok T /\
    nlp sample_model T [1; 0; 2; 3; 4; 5; 6; 7]%Z
    = (384822, [0; 0; 154; 182])%Z /\
    x0_opt (sample_config 2 1) T [1; 0; 2; 3; 4; 5; 6; 7]%Z
    = Ok [1; 3; 6]%Z /\
    u_opt (sample_config 2 1) T [1; 0; 2; 3; 4; 5; 6; 7]%Z = Ok [2; 5]%Z.
Proof.
  eexists. split; [reflexivity|]. repeat split.
Qed.

(** All four constraint rows vanish at this vector, while the state
    predicted for the end of the last interval is not its last block. *)
Example feasible_with_free_terminal_state :
  exists T,
    transcribe sample_model (sample_config 2 1) = Ok T /\
    snd (nlp sample_model T [1; 0; 2; 157; 186; 5; 6; 7]%Z) = lbg T /\
    snd (nlp sample_model T [1; 0; 2; 157; 186; 5; 6; 7]%Z) = ubg T /\
    fst (integ T [157; 186]%Z [5]%Z) <> [6; 7]%Z.
Proof.
  eexists. split; [reflexivity|]. repeat split. vm_compute. discriminate.
Qed.

(** Claim C1 as written fails: with two intervals the constraint list has
    no continuity constraint of the last interval, [k = 1]. *)
Lemma last_interval_has_no_continuity_constraint :
  exists T,
    transcribe sample_model (sample_config 2 1) = Ok T /\
    1 < Z.to_nat (nk (sample_config 2 1)) /\
    ~ has_continuity_constraint sample_model T 1.
Proof.
  eexists. split; [reflexivity|]. split; [simpl; lia|].
  intros (m & Hin & _ & Hev).
  cbn in Hin. destruct Hin as [<- | [<- | []]].
  - specialize (Hev (fun _ => [])). vm_compute in Hev. discriminate Hev.
  - specialize (Hev (fun s => match s with
                              | SymX 2 => [1; 1]%Z
                              | SymX _ => [0; 0]%Z
                              | SymU _ => [0]%Z
                              end)).
    vm_compute in Hev. discriminate Hev.
Qed.

(** Claim C9 as written fails: with [nk = 0] the exception is Python's
    [ZeroDivisionError], not [ConfigurationError], and with [nk = -1] the
    script fails later, in the layout. *)
Lemma nk_zero_is_not_a_configuration_error :
  transcribe sample_model (sample_config 0 1) = Raise ZeroDivisionError 107 /\
  ~ (exists line,
       transcribe sample_model (sample_config 0 1)
       = Raise ConfigurationError line) /\
  transcribe sample_model (sample_config (-1) 1) = Raise IndexError 185.
Proof.
  split; [reflexivity|]. split; [|reflexivity].
  intros [line H]. vm_compute in H. discriminate H.
Qed.

Lemma invalid_nk_raises_python_errors_witness :
  nk (sample_config 0 1) = 0%Z /\
  transcribe sample_model (sample_config 0 1) = Raise ZeroDivisionError 107.
Proof.
  assert (H1 : nk (sample_config 0 1) = 0%Z) by reflexivity.
  split; [exact H1|].
  exact (proj1 (@invalid_nk_raises_python_errors Z Scalar_Z sample_model
                  (sample_config 0 1)) H1).
Defined.

(** * Further properties of the script *)

Section FurtherProperties.

Context {F : Type} {SF : Scalar F}.

Implicit Types (M : Model F) (c : Config F) (T : Transcription F).
Local Abbreviation vec := (@vec F).
Local Abbreviation env := (@env F).

(** ** Which runs succeed *)

Lemma transcribe_zero_nj M c :
  nk c <> 0%Z -> nj c = 0%Z ->
  transcribe M c = Raise ZeroDivisionError 138.
Proof.
  intros Hnk Hnj. unfold transcribe, py_div.
  destruct (Z.eqb_spec (nk c) 0) as [E|_]; [contradiction|]. cbn [bind].
  now rewrite Hnj.
Qed.

Lemma transcribe_negative_nk M c :
  (nk c < 0)%Z -> nj c <> 0%Z ->
  transcribe M c = Raise IndexError 185.
Proof.
  intros Hneg Hnj. unfold transcribe, py_div.
  destruct (Z.eqb_spec (nk c) 0) as [E|_]; [lia|]. cbn [bind].
  destruct (Z.eqb_spec (nj c) 0) as [E|_]; [contradiction|]. cbn [bind].
  unfold alloc_all, py_range.
  replace (Z.to_nat (nk c + 1)) with 0 by lia.
  replace (Z.to_nat (nk c)) with 0 by lia.
  reflexivity.
Qed.

Lemma transcribe_cases M c :
  transcribe M c
  = if (nk c =? 0)%Z then Raise ZeroDivisionError 107
    else if (nj c =? 0)%Z then Raise ZeroDivisionError 138
    else if (nk c <? 0)%Z then Raise IndexError 185
    else Ok (transcription_of M c).
Proof.
  destruct (Z.eqb_spec (nk c) 0) as [E0|N0].
  - unfold transcribe, py_div. now rewrite E0.
  - destruct (Z.eqb_spec (nj c) 0) as [Ej|Nj].
    + now apply transcribe_zero_nj.
    + destruct (Z.ltb_spec (nk c) 0) as [Hneg|Hpos].
      * now apply transcribe_negative_nk.
      * apply transcribe_ok; [lia | exact Nj].
Qed.

(** The script runs to the end exactly when there is at least one
    interval and the number of sub-steps is not zero. *)
Theorem transcribe_succeeds_iff M c :
  (exists T, transcribe M c = Ok T) <-> (1 <= nk c)%Z /\ nj c <> 0%Z.
Proof.
  rewrite transcribe_cases. split.
  - intros [T H].
    destruct (Z.eqb_spec (nk c) 0); [discriminate H|].
    destruct (Z.eqb_spec (nj c) 0); [discriminate H|].
    destruct (Z.ltb_spec (nk c) 0); [discriminate H|]. lia.
  - intros [Hnk Hnj].
    destruct (Z.eqb_spec (nk c) 0); [lia|].
    destruct (Z.eqb_spec (nj c) 0); [contradiction|].
    destruct (Z.ltb_spec (nk c) 0); [lia|]. eauto.
Qed.

(** A run that fails does so in one of three places: the division
    [tf/nk] of line 107 when [nk = 0], the division [dt/nj] of line 138
    when [nj = 0], or [xk[-1]] of line 185 when [nk] is negative. *)
Theorem transcribe_failure_places M c (e : pyexc) (line : nat) :
  transcribe M c = Raise e line ->
  (e = ZeroDivisionError /\ line = 107 /\ nk c = 0%Z) \/
  (e = ZeroDivisionError /\ line = 138 /\ nk c <> 0%Z /\ nj c = 0%Z) \/
  (e = IndexError /\ line = 185 /\ (nk c < 0)%Z /\ nj c <> 0%Z).
Proof.
  rewrite transcribe_cases. intros H.
  destruct (Z.eqb_spec (nk c) 0) as [E0|N0].
  - injection H as <- <-. now left.
  - destruct (Z.eqb_spec (nj c) 0) as [Ej|Nj].
    + injection H as <- <-. right. left. now repeat split.
    + destruct (Z.ltb_spec (nk c) 0) as [Hneg|Hpos]; [|discriminate H].
      injection H as <- <-. right. right. now repeat split.
Qed.

(** ** More on the integrator *)

Lemma rk4_body_state_only (ode : vec -> vec -> vec * F) (h : F) (u x : vec)
  (a a' : F) :
  fst (rk4_body ode h u (x, a)) = fst (rk4_body ode h u (x, a')).
Proof.
  unfold rk4_body.
  destruct (ode x u) as [k1 k1_L].
  destruct (ode (vadd x (vscale (div h (of_int 2)) k1)) u) as [k2 k2_L].
  destruct (ode (vadd x (vscale (div h (of_int 2)) k2)) u) as [k3 k3_L].
  destruct (ode (vadd x (vscale h k3)) u) as [k4 k4_L].
  reflexivity.
Qed.

Lemma rk4_loop_state_only (ode : vec -> vec -> vec * F) (h : F) (u : vec)
  (ks : list nat) (x : vec) (a a' : F) :
  fst (fold_left (fun st _ => rk4_body ode h u st) ks (x, a))
  = fst (fold_left (fun st _ => rk4_body ode h u st) ks (x, a')).
Proof.
  revert x a a'. induction ks as [|k ks IH]; intros x a a'; [reflexivity|].
  cbn [fold_left]. assert (E := rk4_body_state_only ode h u x a a').
  destruct (rk4_body ode h u (x, a)) as [y b].
  destruct (rk4_body ode h u (x, a')) as [y' b'].
  cbn [fst] in E. subst y'. apply IH.
Qed.

Lemma rk4_loop_shift (ode : vec -> vec -> vec * F) (h : F) (u : vec)
  (m a b : nat) (st : vec * F) :
  fold_left (fun st _ => rk4_body ode h u st) (seq a m) st
  = fold_left (fun st _ => rk4_body ode h u st) (seq b m) st.
Proof.
  revert a b st. induction m as [|m IH]; intros a b st; [reflexivity|].
  cbn [seq fold_left]. apply IH.
Qed.

(** Sub-stepping composes on the state: the state after [a + b] sub-steps
    is the state after [b] sub-steps started from the state after [a]
    sub-steps, whatever the right-hand side and the running cost. *)
Theorem integrator_state_composes (ode : vec -> vec -> vec * F) (h : F)
  (a b : Z) (x_start u : vec) :
  (0 <= a)%Z -> (0 <= b)%Z ->
  fst (integrator ode h (a + b) x_start u)
  = fst (integrator ode h b (fst (integrator ode h a x_start u)) u).
Proof.
  intros Ha Hb. unfold integrator, py_range.
  rewrite Z2Nat.inj_add by assumption.
  rewrite seq_app, fold_left_app. cbn [Nat.add].
  rewrite (rk4_loop_shift ode h u (Z.to_nat b) (Z.to_nat a) 0).
  destruct (fold_left _ (seq 0 (Z.to_nat a)) (x_start, of_int 0))
    as [y acc].
  apply rk4_loop_state_only.
Qed.

(** A negative number of sub-steps is not refused: the script runs, its
    integrator takes no sub-step, returns the start state and the cost
    zero, and every continuity constraint compares two state symbols
    directly. *)
Theorem negative_nj_integrates_nothing M c :
  (1 <= nk c)%Z -> (nj c < 0)%Z ->
  exists T,
    transcribe M c = Ok T /\
    (forall x u, integ T x u = (x, of_int 0)) /\
    (forall k (e : env), k + 1 < Z.to_nat (nk c) ->
       exists m, nth_error (eqs T) (S k) = Some m /\
                 eval m e = vsub (e (SymX k)) (e (SymX (S k)))).
Proof.
  intros Hnk Hnj. exists (transcription_of M c).
  split; [apply transcribe_ok; lia|].
  assert (Hint : forall x u, integ (transcription_of M c) x u = (x, of_int 0)).
  { intros x u. cbn [transcription_of integ]. unfold integrator, py_range.
    now replace (Z.to_nat (nj c)) with 0 by lia. }
  split; [exact Hint|].
  intros k e Hk. rewrite eqs_transcription_of.
  exists (defect_mx M (integ (transcription_of M c)) k). split.
  - cbn [nth_error]. apply nth_error_map_seq. lia.
  - cbn [defect_mx mx_sub mx_sym eval]. now rewrite Hint.
Qed.

(** When the right-hand side returns as many rows as its state argument
    has, so does the integrator of the script: a start state of [nx] rows
    gives an end state of [nx] rows. *)
Theorem integrator_keeps_state_size M c :
  (1 <= nk c)%Z -> nj c <> 0%Z ->
  (forall x u, length x = nx M -> length (ode_f M x u) = nx M) ->
  exists T,
    transcribe M c = Ok T /\
    forall x u, length x = nx M -> length (fst (integ T x u)) = nx M.
Proof.
  intros Hnk Hnj Hf. exists (transcription_of M c).
  split; [now apply transcribe_ok|].
  intros x u Hx. cbn [transcription_of integ].
  now apply integrator_length.
Qed.

(** ** The decision vector and the symbols *)

Lemma map_layout_from (A B : Type) (g : A -> B) (fx fu : nat -> A)
  (m a : nat) :
  map g (layout_from fx fu a m)
  = layout_from (fun j => g (fx j)) (fun j => g (fu j)) a m.
Proof.
  revert a. induction m as [|m IH]; intros a; [reflexivity|].
  rewrite !layout_from_S. cbn [map]. now rewrite IH.
Qed.

Lemma layout_from_ext (A : Type) (fx fu gx gu : nat -> A) (m a : nat) :
  (forall k, k <= m -> fx (a + k) = gx (a + k)) ->
  (forall k, k < m -> fu (a + k) = gu (a + k)) ->
  layout_from fx fu a m = layout_from gx gu a m.
Proof.
  revert a. induction m as [|m IH]; intros a Hx Hu.
  - unfold layout_from. cbn [seq flat_map app]. f_equal. apply (Hx 0). lia.
  - rewrite !layout_from_S.
    specialize (Hx 0 ltac:(lia)) as Hx0.
    specialize (Hu 0 ltac:(lia)) as Hu0.
    rewrite Nat.add_0_r in Hx0, Hu0. rewrite Hx0, Hu0. do 2 f_equal.
    apply IH.
    + intros k Hk. replace (S a + k) with (a + S k) by lia. apply Hx. lia.
    + intros k Hk. replace (S a + k) with (a + S k) by lia. apply Hu. lia.
Qed.

Lemma in_layout_from (A : Type) (fx fu : nat -> A) (m a : nat) (s : A) :
  In s (layout_from fx fu a m) ->
  (exists k, k <= m /\ s = fx (a + k)) \/
  (exists k, k < m /\ s = fu (a + k)).
Proof.
  revert a. induction m as [|m IH]; intros a H.
  - unfold layout_from in H. cbn in H. destruct H as [<-|[]].
    left. exists 0. split; [lia | reflexivity].
  - rewrite layout_from_S in H. destruct H as [<-|[<-|H]].
    + left. exists 0. rewrite Nat.add_0_r. split; [lia | reflexivity].
    + right. exists 0. rewrite Nat.add_0_r. split; [lia | reflexivity].
    + destruct (IH (S a) H) as [(k & Hk & ->)|(k & Hk & ->)].
      * left. exists (S k). split; [lia | f_equal; lia].
      * right. exists (S k). split; [lia | f_equal; lia].
Qed.

Lemma layout_from_in_x (A : Type) (fx fu : nat -> A) (m a k : nat) :
  k <= m -> In (fx (a + k)) (layout_from fx fu a m).
Proof.
  revert a k. induction m as [|m IH]; intros a k Hk.
  - assert (k = 0) by lia. subst k. unfold layout_from. cbn. now left.
  - rewrite layout_from_S. destruct k as [|k].
    + rewrite Nat.add_0_r. now left.
    + right. right. replace (a + S k) with (S a + k) by lia.
      apply IH. lia.
Qed.

Lemma layout_from_in_u (A : Type) (fx fu : nat -> A) (m a k : nat) :
  k < m -> In (fu (a + k)) (layout_from fx fu a m).
Proof.
  revert a k. induction m as [|m IH]; intros a k Hk; [lia|].
  rewrite layout_from_S. destruct k as [|k].
  - rewrite Nat.add_0_r. right. now left.
  - right. right. replace (a + S k) with (S a + k) by lia.
    apply IH. lia.
Qed.

Lemma layout_from_snoc (A : Type) (fx fu : nat -> A) (n : nat) :
  layout_from fx fu 0 (S n) = layout_from fx fu 0 n ++ [fu n; fx (S n)].
Proof.
  unfold layout_from. rewrite seq_S, flat_map_app. cbn.
  now rewrite <- !app_assoc.
Qed.

Lemma layout_from_permutation (A : Type) (fx fu : nat -> A) (n : nat) :
  Permutation (layout_from fx fu 0 n)
    (map fx (seq 0 (S n)) ++ map fu (seq 0 n)).
Proof.
  induction n as [|n IH]; [reflexivity|].
  rewrite layout_from_snoc, IH.
  rewrite (seq_S (S n)), map_app.
  set (xs := map fx (seq 0 (S n))).
  rewrite (seq_S n), map_app. cbn [map Nat.add].
  rewrite <- !app_assoc. apply Permutation_app_head.
  change ([fu n; fx (S n)]) with ([fu n] ++ [fx (S n)]).
  rewrite (app_assoc (map fu (seq 0 n))). apply Permutation_app_comm.
Qed.

Lemma layout_symbols_code (m a : nat) :
  map (fun s => match s with SymX k => 2 * k | SymU k => 2 * k + 1 end)
    (layout_from SymX SymU a m)
  = seq (2 * a) (2 * m + 1).
Proof.
  revert a. induction m as [|m IH]; intros a.
  - unfold layout_from. change (2 * 0 + 1) with 1.
    cbn [seq flat_map app map]. now rewrite Nat.add_0_r.
  - rewrite layout_from_S. cbn [map]. rewrite IH.
    replace (2 * S m + 1) with (S (S (2 * m + 1))) by lia.
    replace (2 * S a) with (S (S (2 * a))) by lia.
    replace (2 * a + 1) with (S (2 * a)) by lia.
    reflexivity.
Qed.

Lemma layout_symbols_size M (m a : nat) :
  list_sum (map (sym_size M) (layout_from SymX SymU a m))
  = m * stride M + nx M.
Proof.
  revert a. induction m as [|m IH]; intros a.
  - unfold layout_from. cbn. lia.
  - rewrite layout_from_S. cbn [map list_sum fold_right sym_size].
    change (fold_right Nat.add 0 ?l) with (list_sum l).
    rewrite IH. unfold stride. lia.
Qed.

(** The list [v] holds every declared symbol exactly once, [2*nk+1]
    symbols in all, and the rows of its symbols add up to [nv]. *)
Theorem decision_symbols_once M c :
  (1 <= nk c)%Z -> nj c <> 0%Z ->
  exists T,
    transcribe M c = Ok T /\
    Permutation (v T)
      (map SymX (py_range (nk c + 1)) ++ map SymU (py_range (nk c))) /\
    NoDup (v T) /\
    length (v T) = 2 * Z.to_nat (nk c) + 1 /\
    list_sum (map (sym_size M) (v T)) = nv T.
Proof.
  intros Hnk Hnj. exists (transcription_of M c).
  split; [now apply transcribe_ok|].
  cbn [transcription_of v nv alloc_final a_v a_nv].
  set (n := Z.to_nat (nk c)).
  assert (Hcode := layout_symbols_code n 0).
  split; [|split; [|split]].
  - unfold py_range. replace (Z.to_nat (nk c + 1)) with (S n) by lia.
    apply layout_from_permutation.
  - eapply NoDup_map_inv. rewrite Hcode. apply seq_NoDup.
  - erewrite <- length_map, Hcode. rewrite length_seq. reflexivity.
  - apply layout_symbols_size.
Qed.

Lemma concat_env_layout M (e : env) (n k : nat) :
  well_shaped M e -> k <= n ->
  firstn (nx M)
    (skipn (k * stride M) (concat (map e (layout_from SymX SymU 0 n))))
  = e (SymX k) /\
  (k < n ->
   firstn (nu M)
     (skipn (k * stride M + nx M)
        (concat (map e (layout_from SymX SymU 0 n))))
   = e (SymU k)).
Proof.
  intros Hsh Hk. rewrite map_layout_from.
  assert (Hx : forall j, length (e (SymX j)) = nx M) by (intros j; apply Hsh).
  assert (Hu : forall j, length (e (SymU j)) = nu M) by (intros j; apply Hsh).
  unfold vec in *. split.
  - destruct (@concat_layout_x _ (fun j => e (SymX j)) (fun j => e (SymU j))
                (nx M) (nu M) Hx Hu n 0 k Hk) as (pre & post & E & Hlen).
    rewrite E. unfold stride. rewrite <- Hlen. cbn [Nat.add].
    rewrite <- (Hx k). apply slice_take_drop.
  - intros Hk'.
    destruct (@concat_layout_u _ (fun j => e (SymX j)) (fun j => e (SymU j))
                (nx M) (nu M) Hx Hu n 0 k Hk') as (pre & post & E & Hlen).
    rewrite E. unfold stride. rewrite <- Hlen. cbn [Nat.add].
    rewrite <- (Hu k). apply slice_take_drop.
Qed.

(** Cutting the concatenated values of the symbols of [v] gives every
    symbol of [v] its value back: the NLP function evaluated at
    [vertcat(v)] sees the environment the vector was built from. *)
Theorem binding_inverts_vertcat M c :
  (1 <= nk c)%Z -> nj c <> 0%Z ->
  exists T,
    transcribe M c = Ok T /\
    forall e : env,
      well_shaped M e ->
      forall s, In s (v T) ->
        bind_input M (v T) (concat (map e (v T))) s = e s.
Proof.
  intros Hnk Hnj. exists (transcription_of M c).
  split; [now apply transcribe_ok|].
  intros e Hsh s Hs.
  cbn [transcription_of v alloc_final a_v] in *.
  set (n := Z.to_nat (nk c)) in *.
  apply in_layout_from in Hs.
  destruct Hs as [(k & Hk & ->)|(k & Hk & ->)]; cbn [Nat.add].
  - rewrite (@bind_input_x F M n 0 k _ Hk).
    now apply concat_env_layout.
  - rewrite (@bind_input_u F M n 0 k _ Hk).
    apply concat_env_layout; [assumption | lia | assumption].
Qed.

Lemma firstn_app_skipn (A : Type) (p q : nat) (l : list A) :
  firstn p l ++ firstn q (skipn p l) = firstn (p + q) l.
Proof.
  revert l. induction p as [|p IH]; intros [|x l]; cbn;
    rewrite ?firstn_nil; auto.
  f_equal. apply IH.
Qed.

Lemma concat_blocks_of M (vv : vec) (m a : nat) :
  concat (layout_from (fun k => x_block M k vv) (fun k => u_block M k vv) a m)
  = firstn (m * stride M + nx M) (skipn (a * stride M) vv).
Proof.
  revert a. induction m as [|m IH]; intros a.
  - unfold layout_from. cbn [seq flat_map app concat].
    rewrite app_nil_r, Nat.add_0_r. reflexivity.
  - rewrite layout_from_S. cbn [concat]. rewrite IH.
    unfold x_block, u_block.
    replace (a * stride M + nx M) with (nx M + a * stride M) by lia.
    replace (S a * stride M) with (nu M + (nx M + a * stride M))
      by (unfold stride; lia).
    rewrite <- !skipn_skipn.
    set (l := skipn (a * stride M) vv).
    rewrite (firstn_app_skipn (nu M)), (firstn_app_skipn (nx M)).
    f_equal. unfold stride. lia.
Qed.

(** Conversely, the values that the NLP function gives the symbols of
    [v], concatenated in the order of [v], are the decision vector, when
    it has [nv] entries. *)
Theorem vertcat_inverts_binding M c :
  (1 <= nk c)%Z -> nj c <> 0%Z ->
  exists T,
    transcribe M c = Ok T /\
    forall vv : vec,
      length vv = nv T ->
      concat (map (bind_input M (v T) vv) (v T)) = vv.
Proof.
  intros Hnk Hnj. exists (transcription_of M c).
  split; [now apply transcribe_ok|].
  intros vv Hlen.
  cbn [transcription_of v nv alloc_final a_v a_nv] in *.
  set (n := Z.to_nat (nk c)) in *.
  rewrite map_layout_from.
  rewrite (@layout_from_ext _ _ _ (fun k => x_block M k vv)
             (fun k => u_block M k vv)).
  - rewrite concat_blocks_of. cbn [Nat.mul skipn].
    apply firstn_all2. lia.
  - intros k Hk. apply (@bind_input_x F M n 0 k vv Hk).
  - intros k Hk. apply (@bind_input_u F M n 0 k vv Hk).
Qed.

Lemma positions_of_slice (A : Type) (l : list A) (a m : nat) :
  a + m <= length l ->
  map (nth_error l) (seq a m) = map Some (firstn m (skipn a l)).
Proof.
  intros Hle.
  assert (E : l = firstn a l ++ firstn m (skipn a l) ++ skipn m (skipn a l))
    by now rewrite !firstn_skipn.
  assert (Hpre : length (firstn a l) = a)
    by (rewrite length_firstn; lia).
  assert (Hblk : length (firstn m (skipn a l)) = m)
    by (rewrite length_firstn, length_skipn; lia).
  revert E Hpre Hblk.
  generalize (firstn a l) (firstn m (skipn a l)) (skipn m (skipn a l)).
  intros pre blk post -> <- <-. apply slice_positions.
Qed.

(** The index map and the NLP function agree: the entries of a decision
    vector at the positions recorded for a block are the value that the
    NLP function gives the symbol of that block. *)
Theorem index_map_matches_binding M c :
  (1 <= nk c)%Z -> nj c <> 0%Z ->
  exists T,
    transcribe M c = Ok T /\
    forall vv : vec,
      length vv = nv T ->
      (forall k r, nth_error (vind_x T) k = Some r ->
         map (nth_error vv) r
         = map Some (bind_input M (v T) vv (SymX k))) /\
      (forall k r, nth_error (vind_u T) k = Some r ->
         map (nth_error vv) r
         = map Some (bind_input M (v T) vv (SymU k))).
Proof.
  intros Hnk Hnj. exists (transcription_of M c).
  split; [now apply transcribe_ok|].
  intros vv Hlen. split; intros k r Hr.
  - cbn [transcription_of vind_x nv alloc_final a_vind_x a_nv] in Hr, Hlen.
    apply nth_error_map_seq_inv in Hr. destruct Hr as [Hk ->].
    rewrite (proj1 (bind_input_blocks M c vv k)) by lia.
    apply positions_of_slice. rewrite Hlen.
    assert (k * stride M <= Z.to_nat (nk c) * stride M)
      by (apply Nat.mul_le_mono_r; lia).
    lia.
  - cbn [transcription_of vind_u nv alloc_final a_vind_u a_nv] in Hr, Hlen.
    apply nth_error_map_seq_inv in Hr. destruct Hr as [Hk ->].
    rewrite (proj2 (bind_input_blocks M c vv k)) by lia.
    apply positions_of_slice. rewrite Hlen.
    assert (S k * stride M <= Z.to_nat (nk c) * stride M)
      by (apply Nat.mul_le_mono_r; lia).
    unfold stride in *. lia.
Qed.

(** The objective and the constraints have no free symbol: two
    environments that agree on the symbols of [v] give the same objective
    value and the same constraint values. *)
Theorem nlp_reads_only_decision_symbols M c :
  (1 <= nk c)%Z -> nj c <> 0%Z ->
  exists T,
    transcribe M c = Ok T /\
    forall e e' : env,
      (forall s, In s (v T) -> e s = e' s) ->
      J T e = J T e' /\ eval (g T) e = eval (g T) e'.
Proof.
  intros Hnk Hnj. exists (transcription_of M c).
  split; [now apply transcribe_ok|].
  intros e e' Hagree.
  set (n := Z.to_nat (nk c)).
  assert (Hx : forall k, k <= n -> e (SymX k) = e' (SymX k)).
  { intros k Hk. apply Hagree. cbn [transcription_of v alloc_final a_v].
    apply (@layout_from_in_x _ SymX SymU n 0 k Hk). }
  assert (Hu : forall k, k < n -> e (SymU k) = e' (SymU k)).
  { intros k Hk. apply Hagree. cbn [transcription_of v alloc_final a_v].
    apply (@layout_from_in_u _ SymX SymU n 0 k Hk). }
  split.
  - apply (@J_upto_ext F SF (integ (transcription_of M c)) n).
    intros i Hi. split; [apply Hx; lia | now apply Hu].
  - rewrite g_transcription_of, eqs_transcription_of. fold n.
    cbn [mx_vertcat eval map concat]. f_equal.
    + cbn [init_mx eval]. rewrite Hx by lia. reflexivity.
    + f_equal. rewrite !map_map. apply map_ext_in. intros k Hk.
      apply in_seq in Hk.
      apply eval_defect_ext; [apply Hx | apply Hu | apply Hx]; lia.
Qed.

Lemma Forall2_concat_layout (R : F -> F -> Prop) (ax au bx bu : vec)
  (m a : nat) :
  Forall2 R ax bx -> Forall2 R au bu ->
  Forall2 R (concat (layout_from (fun _ => ax) (fun _ => au) a m))
            (concat (layout_from (fun _ => bx) (fun _ => bu) a m)).
Proof.
  intros Hx Hu. revert a. induction m as [|m IH]; intros a.
  - unfold layout_from. cbn. now rewrite !app_nil_r.
  - rewrite !layout_from_S. cbn [concat].
    apply Forall2_app; [exact Hx|]. apply Forall2_app; [exact Hu | apply IH].
Qed.

(** A guess between the bounds of the model gives an initial guess between
    the bounds of the NLP, entry by entry, for any comparison of
    numbers. *)
Theorem initial_guess_within_bounds M c (R : F -> F -> Prop) :
  (1 <= nk c)%Z -> nj c <> 0%Z ->
  Forall2 R (lbx M) (x0 M) -> Forall2 R (x0 M) (ubx M) ->
  Forall2 R (lbu M) (u0 M) -> Forall2 R (u0 M) (ubu M) ->
  exists T,
    transcribe M c = Ok T /\
    Forall2 R (lbv T) (v0 T) /\ Forall2 R (v0 T) (ubv T).
Proof.
  intros Hnk Hnj Hlx Hxu Hlu Huu. exists (transcription_of M c).
  split; [now apply transcribe_ok|].
  cbn [transcription_of lbv ubv v0 alloc_final a_lbv a_ubv a_v0].
  split; now apply Forall2_concat_layout.
Qed.

(** ** More on reading the solution *)

Lemma comprehension_raises (A : Type) (ks : list nat) (g : nat -> result A)
  (e : pyexc) (line : nat) :
  (forall k, In k ks -> (exists a, g k = Ok a) \/ g k = Raise e line) ->
  (exists k, In k ks /\ g k = Raise e line) ->
  comprehension ks g = Raise e line.
Proof.
  induction ks as [|k ks IH]; intros Hall (j & Hj & Ej); [destruct Hj|].
  cbn [comprehension].
  destruct (Hall k (or_introl eq_refl)) as [(a & Ea)|Er].
  - rewrite Ea. cbn [bind]. rewrite IH; [reflexivity | |].
    + intros i Hi. apply Hall. now right.
    + destruct Hj as [<-|Hj]; [congruence|]. now exists j.
  - now rewrite Er.
Qed.

Lemma component_opt_indices (start : nat -> nat) (len cnt : nat) (nz : Z)
  (i line : nat) (v_opt : vec) :
  Z.to_nat nz = cnt -> i < len ->
  component_opt (map (fun k => seq (start k) len) (seq 0 cnt)) nz
    (Z.of_nat i) line v_opt
  = mx_getitem v_opt (map (fun k => start k + i) (seq 0 cnt)) line.
Proof.
  intros Hcnt Hi. unfold component_opt, py_range. rewrite Hcnt.
  rewrite (@comprehension_ok _ _ _ (fun k => start k + i)); [reflexivity|].
  intros k Hk. apply in_seq in Hk.
  rewrite (@py_index_nat _ _ _ _ (seq (start k) len)).
  - cbn [bind]. apply py_index_nat. rewrite nth_error_seq.
    destruct (Nat.ltb_spec i len); [reflexivity | lia].
  - apply (@nth_error_map_seq _ (fun k => seq (start k) len)). lia.
Qed.

Lemma component_opt_short (start : nat -> nat) (len cnt : nat) (nz : Z)
  (i line : nat) (v_opt : vec) :
  Z.to_nat nz = cnt -> i < len ->
  (exists k, k < cnt /\ length v_opt <= start k + i) ->
  component_opt (map (fun k => seq (start k) len) (seq 0 cnt)) nz
    (Z.of_nat i) line v_opt
  = Raise RuntimeError line.
Proof.
  intros Hcnt Hi (k & Hk & Hshort).
  rewrite component_opt_indices by assumption.
  unfold mx_getitem. apply comprehension_raises.
  - intros j _. destruct (nth_error v_opt j) as [a|]; eauto.
  - exists (start k + i). split.
    + apply in_map_iff. exists k. split; [reflexivity|]. apply in_seq. lia.
    + now rewrite (proj2 (nth_error_None v_opt (start k + i)) Hshort).
Qed.

Lemma component_opt_missing (start : nat -> nat) (len cnt : nat) (nz : Z)
  (i line : nat) (v_opt : vec) :
  Z.to_nat nz = S cnt -> len <= i ->
  component_opt (map (fun k => seq (start k) len) (seq 0 (S cnt))) nz
    (Z.of_nat i) line v_opt
  = Raise IndexError line.
Proof.
  intros Hcnt Hi. unfold component_opt, py_range. rewrite Hcnt.
  cbn [seq comprehension map].
  rewrite (@py_index_nat _ _ 0 _ (seq (start 0) len)) by reflexivity.
  cbn [bind]. unfold py_index at 1.
  destruct (Z.ltb_spec (Z.of_nat i) 0) as [Hneg|_]; [lia|].
  destruct (Z.ltb_spec (Z.of_nat i) 0) as [Hneg|_]; [lia|].
  rewrite Nat2Z.id.
  rewrite (proj2 (nth_error_None (seq (start 0) len) i))
    by (rewrite length_seq; exact Hi).
  reflexivity.
Qed.

(** Reading component [i] of the state succeeds exactly when the solution
    vector reaches the position of that component in the last state
    block; a shorter vector is refused with [RuntimeError].  A vector
    shorter than [nv] can thus still be read. *)
Theorem state_component_needs_length M c :
  (1 <= nk c)%Z -> nj c <> 0%Z ->
  exists T,
    transcribe M c = Ok T /\
    forall (v_opt : vec) (i line : nat),
      i < nx M ->
      (Z.to_nat (nk c) * (nx M + nu M) + i < length v_opt ->
       exists l,
         component_opt (vind_x T) (nk c + 1) (Z.of_nat i) line v_opt = Ok l /\
         length l = Z.to_nat (nk c) + 1) /\
      (length v_opt <= Z.to_nat (nk c) * (nx M + nu M) + i ->
       component_opt (vind_x T) (nk c + 1) (Z.of_nat i) line v_opt
       = Raise RuntimeError line).
Proof.
  intros Hnk Hnj. exists (transcription_of M c).
  split; [now apply transcribe_ok|].
  intros v_opt i line Hi.
  cbn [transcription_of vind_x alloc_final a_vind_x].
  set (n := Z.to_nat (nk c)). fold (stride M). unfold x_range.
  assert (Hcnt : Z.to_nat (nk c + 1) = S n) by lia.
  split.
  - intros Hlong. eexists. split.
    + apply (@component_opt_ok F SF (fun k => k * stride M) (nx M) (S n));
        [exact Hcnt | exact Hi |].
      intros k Hk.
      assert (k * stride M <= n * stride M)
        by (apply Nat.mul_le_mono_r; lia).
      lia.
    + rewrite length_map, length_seq. lia.
  - intros Hshort.
    apply (@component_opt_short (fun k => k * stride M) (nx M) (S n));
      [exact Hcnt | exact Hi |].
    exists n. split; [lia | exact Hshort].
Qed.

(** The three reads of the script assume a model with two states and one
    control: with no state [x0_opt] fails, with fewer than two states
    [x1_opt] fails, with no control [u_opt] fails, each with [IndexError]
    at its own line and whatever the solution vector. *)
Theorem reads_need_two_states_one_control M c :
  (1 <= nk c)%Z -> nj c <> 0%Z ->
  exists T,
    transcribe M c = Ok T /\
    forall v_opt : vec,
      (nx M = 0 -> x0_opt c T v_opt = Raise IndexError 218) /\
      (nx M <= 1 -> x1_opt c T v_opt = Raise IndexError 219) /\
      (nu M = 0 -> u_opt c T v_opt = Raise IndexError 220).
Proof.
  intros Hnk Hnj. exists (transcription_of M c).
  split; [now apply transcribe_ok|].
  intros v_opt. unfold x0_opt, x1_opt, u_opt.
  cbn [transcription_of vind_x vind_u alloc_final a_vind_x a_vind_u].
  set (n := Z.to_nat (nk c)).
  assert (Hn : exists p, n = S p) by (exists (n - 1); lia).
  destruct Hn as [p Hp].
  split; [|split]; intros Hsz.
  - apply (@component_opt_missing (fun k => k * stride M) (nx M) n
             (nk c + 1) 0 218 v_opt); lia.
  - apply (@component_opt_missing (fun k => k * stride M) (nx M) n
             (nk c + 1) 1 219 v_opt); lia.
  - rewrite Hp.
    apply (@component_opt_missing (fun k => k * stride M + nx M) (nu M) p
             (nk c) 0 220 v_opt); lia.
Qed.

Lemma const_env_blocks M (n k : nat) (bx bu : vec) :
  length bx = nx M -> length bu = nu M -> k <= n ->
  x_block M k (concat (layout_from (fun _ => bx) (fun _ => bu) 0 n)) = bx /\
  (k < n ->
   u_block M k (concat (layout_from (fun _ => bx) (fun _ => bu) 0 n)) = bu).
Proof.
  intros Hx Hu Hk.
  set (e := fun s : sym => match s with SymX _ => bx | SymU _ => bu end).
  assert (Hsh : well_shaped M e) by (intros j; now split).
  assert (E : layout_from (fun _ : nat => bx) (fun _ : nat => bu) 0 n
              = map e (layout_from SymX SymU 0 n))
    by now rewrite map_layout_from.
  rewrite E. unfold x_block, u_block.
  apply (@concat_env_layout M e n k Hsh Hk).
Qed.

Lemma constant_samples (blocks : nat -> vec) (b : vec) (i cnt : nat)
  (l : vec) (a : F) :
  samples_of blocks i cnt l ->
  (forall k, k < cnt -> blocks k = b) ->
  nth_error b i = Some a ->
  l = repeat a cnt.
Proof.
  intros [Hlen Hs] Hb Ha. apply nth_error_ext. intros k.
  destruct (Nat.lt_ge_cases k cnt) as [Hk|Hk].
  - rewrite Hs, Hb, Ha by assumption. symmetry.
    now apply nth_error_repeat.
  - rewrite (proj2 (nth_error_None l k)) by lia.
    symmetry. apply nth_error_None. now rewrite repeat_length.
Qed.

(** Reading the initial guess back gives constant trajectories: component
    [i] of the state read from [v0] is [nk+1] times entry [i] of the
    model's state guess, and component [i] of the control [nk] times
    entry [i] of its control guess. *)
Theorem reading_initial_guess M c :
  (1 <= nk c)%Z -> nj c <> 0%Z ->
  length (x0 M) = nx M -> length (u0 M) = nu M ->
  exists T,
    transcribe M c = Ok T /\
    (forall (i line : nat) (a : F),
       nth_error (x0 M) i = Some a ->
       component_opt (vind_x T) (nk c + 1) (Z.of_nat i) line (v0 T)
       = Ok (repeat a (Z.to_nat (nk c) + 1))) /\
    (forall (i line : nat) (a : F),
       nth_error (u0 M) i = Some a ->
       component_opt (vind_u T) (nk c) (Z.of_nat i) line (v0 T)
       = Ok (repeat a (Z.to_nat (nk c)))).
Proof.
  intros Hnk Hnj Hx Hu. exists (transcription_of M c).
  split; [now apply transcribe_ok|].
  set (n := Z.to_nat (nk c)).
  assert (Hlen : length (v0 (transcription_of M c))
                 = nv (transcription_of M c)).
  { cbn [transcription_of v0 nv alloc_final a_v0 a_nv].
    apply (@const_layout_slices F M n _ _ Hx Hu). }
  split; intros i line a Ha.
  - assert (Hi : i < nx M)
      by (rewrite <- Hx; apply nth_error_Some; congruence).
    destruct (@component_x_ok F SF M c _ i line Hnk Hi Hlen)
      as (l & -> & Hs).
    f_equal. eapply constant_samples; [exact Hs | | exact Ha].
    intros k Hk. cbn [transcription_of v0 alloc_final a_v0].
    apply (@const_env_blocks M n k _ _ Hx Hu). fold n in Hk. lia.
  - assert (Hi : i < nu M)
      by (rewrite <- Hu; apply nth_error_Some; congruence).
    destruct (@component_u_ok F SF M c _ i line Hnk Hi Hlen)
      as (l & -> & Hs).
    f_equal. eapply constant_samples; [exact Hs | | exact Ha].
    intros k Hk. cbn [transcription_of v0 alloc_final a_v0].
    apply (@const_env_blocks M n k _ _ Hx Hu); fold n in Hk; [lia | exact Hk].
Qed.

(** The samples passed to the step plot: for a model with a control and a
    solution vector of length [nv] there are as many as grid times,
    [nk+1]; the first is the control of the first interval once more, and
    sample [k+1] is the control of interval [k]. *)
Theorem step_plot_samples M c :
  (1 <= nk c)%Z -> nj c <> 0%Z -> 1 <= nu M ->
  exists T,
    transcribe M c = Ok T /\
    forall v_opt : vec,
      length v_opt = nv T ->
      exists l,
        u_plot c T v_opt = Ok l /\
        length l = length (tgrid c) /\
        nth_error l 0 = nth_error (u_block M 0 v_opt) 0 /\
        (forall k, k < Z.to_nat (nk c) ->
           nth_error l (S k) = nth_error (u_block M k v_opt) 0).
Proof.
  intros Hnk Hnj Hnu. exists (transcription_of M c).
  split; [now apply transcribe_ok|].
  intros v_opt Hlen.
  destruct (@component_u_ok F SF M c v_opt 0 220 Hnk Hnu Hlen)
    as (lu & E & Hcount & Hs).
  unfold u_plot, u_opt. change 0%Z with (Z.of_nat 0). rewrite E.
  cbn [bind]. unfold u_step.
  destruct lu as [|a lu]; [cbn [length] in Hcount; lia|].
  cbn [nth_error]. exists (a :: a :: lu).
  split; [reflexivity|]. split; [|split].
  - cbn [length] in *. unfold tgrid. rewrite linspace_length by lia. lia.
  - cbn [nth_error]. apply (Hs 0). lia.
  - intros k Hk. cbn [nth_error]. now apply Hs.
Qed.

(** ** The constraint vector at a decision vector *)

Lemma nlp_g_value M c (vv : vec) :
  snd (nlp M (transcription_of M c) vv)
  = init_I M (x_block M 0 vv)
    ++ concat
         (map (fun k =>
                 vsub (fst (integ (transcription_of M c)
                              (x_block M k vv) (u_block M k vv)))
                      (x_block M (S k) vv))
              (seq 0 (Z.to_nat (nk c) - 1))).
Proof.
  unfold nlp. cbn [snd].
  rewrite g_transcription_of, eqs_transcription_of.
  cbn [mx_vertcat eval map concat init_mx].
  rewrite (proj1 (bind_input_blocks M c vv 0)) by lia.
  f_equal. f_equal. rewrite map_map. apply map_ext_in. intros k Hk.
  apply in_seq in Hk. cbn [defect_mx mx_sub mx_sym eval].
  rewrite (proj1 (bind_input_blocks M c vv k)) by lia.
  rewrite (proj2 (bind_input_blocks M c vv k)) by lia.
  rewrite (proj1 (bind_input_blocks M c vv (S k))) by lia.
  reflexivity.
Qed.

Lemma concat_blocks_slice (A : Type) (val : nat -> list A) (b m a j : nat) :
  (forall k, k < m -> length (val (a + k)) = b) ->
  j < m ->
  firstn b (skipn (j * b) (concat (map val (seq a m)))) = val (a + j).
Proof.
  revert a j. induction m as [|m IH]; intros a j Hlen Hj; [lia|].
  cbn [seq map concat].
  assert (H0 : length (val a) = b)
    by (rewrite <- (Hlen 0) by lia; now rewrite Nat.add_0_r).
  destruct j as [|j].
  - cbn [Nat.mul skipn]. rewrite Nat.add_0_r, firstn_app, H0, Nat.sub_diag.
    cbn [firstn]. rewrite app_nil_r. rewrite <- H0. apply firstn_all.
  - rewrite skipn_app, H0.
    rewrite (skipn_all2 (val a)) by (rewrite H0; cbn; lia).
    cbn [app]. replace (S j * b - b) with (j * b) by (cbn; lia).
    replace (a + S j) with (S a + j) by lia.
    apply IH; [|lia].
    intros k Hk. replace (S a + k) with (a + S k) by lia. apply Hlen. lia.
Qed.

Lemma defect_value_length M c (vv : vec) (k : nat) :
  (forall x u, length x = nx M -> length (ode_f M x u) = nx M) ->
  length vv = nv (transcription_of M c) ->
  k + 1 <= Z.to_nat (nk c) ->
  length (vsub (fst (integ (transcription_of M c)
                       (x_block M k vv) (u_block M k vv)))
               (x_block M (S k) vv)) = nx M.
Proof.
  intros Hf Hlen Hk.
  cbn [transcription_of nv alloc_final a_nv] in Hlen.
  unfold vsub. rewrite length_zip_with.
  cbn [transcription_of integ].
  rewrite integrator_length with (n := nx M); [|exact Hf|].
  - rewrite (x_block_length M vv Hlen) by lia. apply Nat.min_id.
  - apply (x_block_length M vv Hlen). lia.
Qed.

Lemma firstn_skipn_repeat (A : Type) (x : A) (a b m : nat) :
  a + b <= m -> firstn b (skipn a (repeat x m)) = repeat x b.
Proof.
  intros Hle. apply nth_error_ext. intros i.
  rewrite nth_error_firstn, nth_error_skipn.
  destruct (Nat.ltb_spec i b) as [Hi|Hi].
  - rewrite !nth_error_repeat by lia. reflexivity.
  - symmetry. apply nth_error_None. now rewrite repeat_length.
Qed.

Lemma concat_map_repeat (A B : Type) (x : A) (b : nat) (l : list B) :
  concat (map (fun _ => repeat x b) l) = repeat x (length l * b).
Proof.
  induction l as [|y l IH]; [reflexivity|].
  cbn [map concat length Nat.mul]. now rewrite IH, repeat_app.
Qed.

Lemma nlp_g_row M c (vv : vec) (k : nat) :
  (forall x, length x = nx M -> length (init_I M x) = nx M) ->
  (forall x u, length x = nx M -> length (ode_f M x u) = nx M) ->
  length vv = nv (transcription_of M c) ->
  k + 1 < Z.to_nat (nk c) ->
  firstn (nx M)
    (skipn (nx M * (k + 1)) (snd (nlp M (transcription_of M c) vv)))
  = vsub (fst (integ (transcription_of M c)
                 (x_block M k vv) (u_block M k vv)))
         (x_block M (k + 1) vv).
Proof.
  intros HI Hf Hlen Hk. rewrite nlp_g_value.
  assert (H0 : length (init_I M (x_block M 0 vv)) = nx M).
  { apply HI.
    cbn [transcription_of nv alloc_final a_nv] in Hlen.
    apply (x_block_length M vv Hlen). lia. }
  rewrite skipn_app, H0.
  rewrite (skipn_all2 (init_I M (x_block M 0 vv))) by (rewrite H0; nia).
  cbn [app]. replace (nx M * (k + 1) - nx M) with (k * nx M) by nia.
  rewrite (@concat_blocks_slice _ _ (nx M) (Z.to_nat (nk c) - 1) 0 k).
  - cbn [Nat.add]. now rewrite Nat.add_1_r.
  - intros j Hj. cbn [Nat.add]. apply defect_value_length; auto. lia.
  - lia.
Qed.

(** The rows of the constraint vector: at a decision vector of length
    [nv], rows [nx*(k+1)] to [nx*(k+2)-1] hold the defect of interval [k],
    the state predicted from its state block and control block minus the
    next state block, for every [k] with [k+1 < nk]. *)
Theorem constraint_rows_of_interval M c :
  (1 <= nk c)%Z -> nj c <> 0%Z ->
  (forall x, length x = nx M -> length (init_I M x) = nx M) ->
  (forall x u, length x = nx M -> length (ode_f M x u) = nx M) ->
  exists T,
    transcribe M c = Ok T /\
    forall (vv : vec) (k : nat),
      length vv = nv T ->
      k + 1 < Z.to_nat (nk c) ->
      firstn (nx M) (skipn (nx M * (k + 1)) (snd (nlp M T vv)))
      = vsub (fst (integ T (x_block M k vv) (u_block M k vv)))
             (x_block M (k + 1) vv).
Proof.
  intros Hnk Hnj HI Hf. exists (transcription_of M c).
  split; [now apply transcribe_ok|].
  intros vv k Hlen Hk. now apply nlp_g_row.
Qed.

(** A decision vector of length [nv] meets every constraint bound, lower
    and upper, exactly when the initial-condition residual at its first
    state block is zero and the defect of every interval [k] with
    [k+1 < nk] is zero. *)
Theorem feasible_iff_residual_and_defects_zero M c :
  (1 <= nk c)%Z -> nj c <> 0%Z ->
  nI M = nx M ->
  (forall x, length x = nx M -> length (init_I M x) = nx M) ->
  (forall x u, length x = nx M -> length (ode_f M x u) = nx M) ->
  exists T,
    transcribe M c = Ok T /\
    lbg T = ubg T /\
    forall vv : vec,
      length vv = nv T ->
      (snd (nlp M T vv) = lbg T <->
       init_I M (x_block M 0 vv) = repeat (of_int 0) (nx M) /\
       forall k, k + 1 < Z.to_nat (nk c) ->
         vsub (fst (integ T (x_block M k vv) (u_block M k vv)))
              (x_block M (k + 1) vv)
         = repeat (of_int 0) (nx M)).
Proof.
  intros Hnk Hnj HnI HI Hf. exists (transcription_of M c).
  split; [now apply transcribe_ok|]. split; [reflexivity|].
  intros vv Hlen.
  set (n := Z.to_nat (nk c)).
  assert (Hlbg : lbg (transcription_of M c) = repeat (of_int 0) (n * nx M)).
  { change (lbg (transcription_of M c))
      with (repeat (of_int 0) (size1 (g (transcription_of M c)))).
    f_equal. rewrite g_transcription_of, eqs_transcription_of. fold n.
    change (size1 (mx_vertcat (?a :: ?l)))
      with (size1 a + size1 (mx_vertcat l)).
    rewrite size1_vertcat_defects, length_seq.
    cbn [init_mx size1]. rewrite HnI. nia. }
  assert (H0 : length (init_I M (x_block M 0 vv)) = nx M).
  { apply HI.
    cbn [transcription_of nv alloc_final a_nv] in Hlen.
    apply (x_block_length M vv Hlen). lia. }
  rewrite Hlbg, nlp_g_value. fold n. split.
  - intros E. split.
    + assert (E0 := f_equal (firstn (nx M)) E).
      rewrite firstn_app, H0, Nat.sub_diag in E0. cbn [firstn] in E0.
      rewrite app_nil_r, <- H0, firstn_all, H0 in E0. rewrite E0.
      apply (firstn_skipn_repeat (of_int 0) 0). nia.
    + intros k Hk.
      assert (Ek := f_equal (fun l => firstn (nx M)
                                        (skipn (nx M * (k + 1)) l)) E).
      cbn beta in Ek.
      rewrite firstn_skipn_repeat in Ek by nia.
      rewrite <- Ek, <- nlp_g_value. symmetry. now apply nlp_g_row.
  - intros [E0 Ed]. rewrite E0.
    rewrite (map_ext_in _ (fun _ => repeat (of_int 0) (nx M))).
    + rewrite concat_map_repeat, length_seq, <- repeat_app.
      f_equal. nia.
    + intros k Hk. apply in_seq in Hk.
      rewrite <- (Ed k) by lia. now rewrite Nat.add_1_r.
Qed.

(** The constraint of interval [k] reads three blocks only: two decision
    vectors of length [nv] with the same state block [k], control block
    [k] and state block [k+1] have the same rows of that constraint. *)
Theorem constraint_rows_read_three_blocks M c :
  (1 <= nk c)%Z -> nj c <> 0%Z ->
  (forall x, length x = nx M -> length (init_I M x) = nx M) ->
  (forall x u, length x = nx M -> length (ode_f M x u) = nx M) ->
  exists T,
    transcribe M c = Ok T /\
    forall (vv vv' : vec) (k : nat),
      length vv = nv T -> length vv' = nv T ->
      k + 1 < Z.to_nat (nk c) ->
      x_block M k vv = x_block M k vv' ->
      u_block M k vv = u_block M k vv' ->
      x_block M (k + 1) vv = x_block M (k + 1) vv' ->
      firstn (nx M) (skipn (nx M * (k + 1)) (snd (nlp M T vv)))
      = firstn (nx M) (skipn (nx M * (k + 1)) (snd (nlp M T vv'))).
Proof.
  intros Hnk Hnj HI Hf. exists (transcription_of M c).
  split; [now apply transcribe_ok|].
  intros vv vv' k Hlen Hlen' Hk Ex Eu En.
  rewrite !nlp_g_row by assumption. now rewrite Ex, Eu, En.
Qed.

End FurtherProperties.

(** ** The further properties at the two-state model *)

Lemma negative_nj_integrates_nothing_witness :
  ((1 <= nk (sample_config 2 (-1)))%Z) /\
  ((nj (sample_config 2 (-1)) < 0)%Z) /\
  exists T,
    transcribe sample_model (sample_config 2 (-1)) = Ok T /\
    (forall x u, integ T x u = (x, of_int 0)) /\
    (forall k (e : sym -> list Z), k + 1 < Z.to_nat (nk (sample_config 2 (-1))) ->
       exists m, nth_error (eqs T) (S k) = Some m /\
                 eval m e = vsub (e (SymX k)) (e (SymX (S k)))).
Proof.
  assert (H1 : (1 <= nk (sample_config 2 (-1)))%Z)
    by (simpl; lia).
  assert (H2 : (nj (sample_config 2 (-1)) < 0)%Z)
    by (simpl; lia).
  repeat (split; [assumption|]).
  exact (@negative_nj_integrates_nothing Z Scalar_Z sample_model (sample_config 2 (-1))
           H1 H2).
Defined.

Lemma integrator_keeps_state_size_witness :
  ((1 <= nk sample_run)%Z) /\
  (nj sample_run <> 0%Z) /\
  ((forall x u, length x = nx sample_model -> length (ode_f sample_model x u) = nx sample_model)) /\
  exists T,
    transcribe sample_model sample_run = Ok T /\
    forall x u, length x = nx sample_model -> length (fst (integ T x u)) = nx sample_model.
Proof.
  assert (H1 : (1 <= nk sample_run)%Z)
    by (simpl; lia).
  assert (H2 : nj sample_run <> 0%Z)
    by (simpl; discriminate).
  assert (H3 : (forall x u, length x = nx sample_model -> length (ode_f sample_model x u) = nx sample_model))
    by (reflexivity).
  repeat (split; [assumption|]).
  exact (@integrator_keeps_state_size Z Scalar_Z sample_model sample_run
           H1 H2 H3).
Defined.

Lemma decision_symbols_once_witness :
  ((1 <= nk sample_run)%Z) /\
  (nj sample_run <> 0%Z) /\
  exists T,
    transcribe sample_model sample_run = Ok T /\
    Permutation (v T)
      (map SymX (py_range (nk sample_run + 1)) ++ map SymU (py_range (nk sample_run))) /\
    NoDup (v T) /\
    length (v T) = 2 * Z.to_nat (nk sample_run) + 1 /\
    list_sum (map (sym_size sample_model) (v T)) = nv T.
Proof.
  assert (H1 : (1 <= nk sample_run)%Z)
    by (simpl; lia).
  assert (H2 : nj sample_run <> 0%Z)
    by (simpl; discriminate).
  repeat (split; [assumption|]).
  exact (@decision_symbols_once Z Scalar_Z sample_model sample_run
           H1 H2).
Defined.

Lemma binding_inverts_vertcat_witness :
  ((1 <= nk sample_run)%Z) /\
  (nj sample_run <> 0%Z) /\
  exists T,
    transcribe sample_model sample_run = Ok T /\
    forall e : sym -> list Z,
      well_shaped sample_model e ->
      forall s, In s (v T) ->
        bind_input sample_model (v T) (concat (map e (v T))) s = e s.
Proof.
  assert (H1 : (1 <= nk sample_run)%Z)
    by (simpl; lia).
  assert (H2 : nj sample_run <> 0%Z)
    by (simpl; discriminate).
  repeat (split; [assumption|]).
  exact (@binding_inverts_vertcat Z Scalar_Z sample_model sample_run
           H1 H2).
Defined.

Lemma vertcat_inverts_binding_witness :
  ((1 <= nk sample_run)%Z) /\
  (nj sample_run <> 0%Z) /\
  exists T,
    transcribe sample_model sample_run = Ok T /\
    forall vv : list Z,
      length vv = nv T ->
      concat (map (bind_input sample_model (v T) vv) (v T)) = vv.
Proof.
  assert (H1 : (1 <= nk sample_run)%Z)
    by (simpl; lia).
  assert (H2 : nj sample_run <> 0%Z)
    by (simpl; discriminate).
  repeat (split; [assumption|]).
  exact (@vertcat_inverts_binding Z Scalar_Z sample_model sample_run
           H1 H2).
Defined.

Lemma index_map_matches_binding_witness :
  ((1 <= nk sample_run)%Z) /\
  (nj sample_run <> 0%Z) /\
  exists T,
    transcribe sample_model sample_run = Ok T /\
    forall vv : list Z,
      length vv = nv T ->
      (forall k r, nth_error (vind_x T) k = Some r ->
         map (nth_error vv) r
         = map Some (bind_input sample_model (v T) vv (SymX k))) /\
      (forall k r, nth_error (vind_u T) k = Some r ->
         map (nth_error vv) r
         = map Some (bind_input sample_model (v T) vv (SymU k))).
Proof.
  assert (H1 : (1 <= nk sample_run)%Z)
    by (simpl; lia).
  assert (H2 : nj sample_run <> 0%Z)
    by (simpl; discriminate).
  repeat (split; [assumption|]).
  exact (@index_map_matches_binding Z Scalar_Z sample_model sample_run
           H1 H2).
Defined.

Lemma nlp_reads_only_decision_symbols_witness :
  ((1 <= nk sample_run)%Z) /\
  (nj sample_run <> 0%Z) /\
  exists T,
    transcribe sample_model sample_run = Ok T /\
    forall e e' : sym -> list Z,
      (forall s, In s (v T) -> e s = e' s) ->
      J T e = J T e' /\ eval (g T) e = eval (g T) e'.
Proof.
  assert (H1 : (1 <= nk sample_run)%Z)
    by (simpl; lia).
  assert (H2 : nj sample_run <> 0%Z)
    by (simpl; discriminate).
  repeat (split; [assumption|]).
  exact (@nlp_reads_only_decision_symbols Z Scalar_Z sample_model sample_run
           H1 H2).
Defined.

Lemma initial_guess_within_bounds_witness :
  ((1 <= nk sample_run)%Z) /\
  (nj sample_run <> 0%Z) /\
  (Forall2 Z.le (lbx sample_model) (x0 sample_model)) /\
  (Forall2 Z.le (x0 sample_model) (ubx sample_model)) /\
  (Forall2 Z.le (lbu sample_model) (u0 sample_model)) /\
  (Forall2 Z.le (u0 sample_model) (ubu sample_model)) /\
  exists T,
    transcribe sample_model sample_run = Ok T /\
    Forall2 Z.le (lbv T) (v0 T) /\ Forall2 Z.le (v0 T) (ubv T).
Proof.
  assert (H1 : (1 <= nk sample_run)%Z)
    by (simpl; lia).
  assert (H2 : nj sample_run <> 0%Z)
    by (simpl; discriminate).
  assert (H3 : Forall2 Z.le (lbx sample_model) (x0 sample_model))
    by (repeat constructor; simpl; lia).
  assert (H4 : Forall2 Z.le (x0 sample_model) (ubx sample_model))
    by (repeat constructor; simpl; lia).
  assert (H5 : Forall2 Z.le (lbu sample_model) (u0 sample_model))
    by (repeat constructor; simpl; lia).
  assert (H6 : Forall2 Z.le (u0 sample_model) (ubu sample_model))
    by (repeat constructor; simpl; lia).
  repeat (split; [assumption|]).
  exact (@initial_guess_within_bounds Z Scalar_Z sample_model sample_run Z.le
           H1 H2 H3 H4 H5 H6).
Defined.

Lemma state_component_needs_length_witness :
  ((1 <= nk sample_run)%Z) /\
  (nj sample_run <> 0%Z) /\
  exists T,
    transcribe sample_model sample_run = Ok T /\
    forall (v_opt : list Z) (i line : nat),
      i < nx sample_model ->
      (Z.to_nat (nk sample_run) * (nx sample_model + nu sample_model) + i < length v_opt ->
       exists l,
         component_opt (vind_x T) (nk sample_run + 1) (Z.of_nat i) line v_opt = Ok l /\
         length l = Z.to_nat (nk sample_run) + 1) /\
      (length v_opt <= Z.to_nat (nk sample_run) * (nx sample_model + nu sample_model) + i ->
       component_opt (vind_x T) (nk sample_run + 1) (Z.of_nat i) line v_opt
       = Raise RuntimeError line).
Proof.
  assert (H1 : (1 <= nk sample_run)%Z)
    by (simpl; lia).
  assert (H2 : nj sample_run <> 0%Z)
    by (simpl; discriminate).
  repeat (split; [assumption|]).
  exact (@state_component_needs_length Z Scalar_Z sample_model sample_run
           H1 H2).
Defined.

Lemma reads_need_two_states_one_control_witness :
  ((1 <= nk sample_run)%Z) /\
  (nj sample_run <> 0%Z) /\
  (nx one_state_model <= 1) /\
  (nu one_state_model = 0) /\
  (nx no_state_model = 0) /\
  (exists T,
     transcribe one_state_model sample_run = Ok T /\
     x1_opt sample_run T [4; 5; 6]%Z = Raise IndexError 219 /\
     u_opt sample_run T [4; 5; 6]%Z = Raise IndexError 220) /\
  (exists T,
     transcribe no_state_model sample_run = Ok T /\
     x0_opt sample_run T [] = Raise IndexError 218).
Proof.
  assert (H1 : (1 <= nk sample_run)%Z)
    by (simpl; lia).
  assert (H2 : nj sample_run <> 0%Z)
    by (simpl; discriminate).
  assert (H3 : nx one_state_model <= 1)
    by (simpl; lia).
  assert (H4 : nu one_state_model = 0)
    by reflexivity.
  assert (H5 : nx no_state_model = 0)
    by reflexivity.
  repeat (split; [assumption|]).
  split.
  - destruct (@reads_need_two_states_one_control Z Scalar_Z
                one_state_model sample_run H1 H2) as (T & E & Hreads).
    exists T. split; [exact E|].
    destruct (Hreads [4; 5; 6]%Z) as (_ & Hx1 & Hu).
    split; [exact (Hx1 H3) | exact (Hu H4)].
  - destruct (@reads_need_two_states_one_control Z Scalar_Z
                no_state_model sample_run H1 H2) as (T & E & Hreads).
    exists T. split; [exact E|].
    destruct (Hreads []) as (Hx0 & _ & _).
    exact (Hx0 H5).
Defined.

Lemma reading_initial_guess_witness :
  ((1 <= nk sample_run)%Z) /\
  (nj sample_run <> 0%Z) /\
  (length (x0 sample_model) = nx sample_model) /\
  (length (u0 sample_model) = nu sample_model) /\
  exists T,
    transcribe sample_model sample_run = Ok T /\
    (forall (i line : nat) (a : Z),
       nth_error (x0 sample_model) i = Some a ->
       component_opt (vind_x T) (nk sample_run + 1) (Z.of_nat i) line (v0 T)
       = Ok (repeat a (Z.to_nat (nk sample_run) + 1))) /\
    (forall (i line : nat) (a : Z),
       nth_error (u0 sample_model) i = Some a ->
       component_opt (vind_u T) (nk sample_run) (Z.of_nat i) line (v0 T)
       = Ok (repeat a (Z.to_nat (nk sample_run)))).
Proof.
  assert (H1 : (1 <= nk sample_run)%Z)
    by (simpl; lia).
  assert (H2 : nj sample_run <> 0%Z)
    by (simpl; discriminate).
  assert (H3 : length (x0 sample_model) = nx sample_model)
    by (reflexivity).
  assert (H4 : length (u0 sample_model) = nu sample_model)
    by (reflexivity).
  repeat (split; [assumption|]).
  exact (@reading_initial_guess Z Scalar_Z sample_model sample_run
           H1 H2 H3 H4).
Defined.

Lemma step_plot_samples_witness :
  ((1 <= nk sample_run)%Z) /\
  (nj sample_run <> 0%Z) /\
  (1 <= nu sample_model) /\
  exists T,
    transcribe sample_model sample_run = Ok T /\
    forall v_opt : list Z,
      length v_opt = nv T ->
      exists l,
        u_plot sample_run T v_opt = Ok l /\
        length l = length (tgrid sample_run) /\
        nth_error l 0 = nth_error (u_block sample_model 0 v_opt) 0 /\
        (forall k, k < Z.to_nat (nk sample_run) ->
           nth_error l (S k) = nth_error (u_block sample_model k v_opt) 0).
Proof.
  assert (H1 : (1 <= nk sample_run)%Z)
    by (simpl; lia).
  assert (H2 : nj sample_run <> 0%Z)
    by (simpl; discriminate).
  assert (H3 : 1 <= nu sample_model)
    by (simpl; lia).
  repeat (split; [assumption|]).
  exact (@step_plot_samples Z Scalar_Z sample_model sample_run
           H1 H2 H3).
Defined.

Lemma constraint_rows_of_interval_witness :
  ((1 <= nk sample_run)%Z) /\
  (nj sample_run <> 0%Z) /\
  ((forall x, length x = nx sample_model -> length (init_I sample_model x) = nx sample_model)) /\
  ((forall x u, length x = nx sample_model -> length (ode_f sample_model x u) = nx sample_model)) /\
  exists T,
    transcribe sample_model sample_run = Ok T /\
    forall (vv : list Z) (k : nat),
      length vv = nv T ->
      k + 1 < Z.to_nat (nk sample_run) ->
      firstn (nx sample_model) (skipn (nx sample_model * (k + 1)) (snd (nlp sample_model T vv)))
      = vsub (fst (integ T (x_block sample_model k vv) (u_block sample_model k vv)))
             (x_block sample_model (k + 1) vv).
Proof.
  assert (H1 : (1 <= nk sample_run)%Z)
    by (simpl; lia).
  assert (H2 : nj sample_run <> 0%Z)
    by (simpl; discriminate).
  assert (H3 : (forall x, length x = nx sample_model -> length (init_I sample_model x) = nx sample_model))
    by (reflexivity).
  assert (H4 : (forall x u, length x = nx sample_model -> length (ode_f sample_model x u) = nx sample_model))
    by (reflexivity).
  repeat (split; [assumption|]).
  exact (@constraint_rows_of_interval Z Scalar_Z sample_model sample_run
           H1 H2 H3 H4).
Defined.

Lemma feasible_iff_residual_and_defects_zero_witness :
  ((1 <= nk sample_run)%Z) /\
  (nj sample_run <> 0%Z) /\
  (nI sample_model = nx sample_model) /\
  ((forall x, length x = nx sample_model -> length (init_I sample_model x) = nx sample_model)) /\
  ((forall x u, length x = nx sample_model -> length (ode_f sample_model x u) = nx sample_model)) /\
  exists T,
    transcribe sample_model sample_run = Ok T /\
    lbg T = ubg T /\
    forall vv : list Z,
      length vv = nv T ->
      (snd (nlp sample_model T vv) = lbg T <->
       init_I sample_model (x_block sample_model 0 vv) = repeat (of_int 0) (nx sample_model) /\
       forall k, k + 1 < Z.to_nat (nk sample_run) ->
         vsub (fst (integ T (x_block sample_model k vv) (u_block sample_model k vv)))
              (x_block sample_model (k + 1) vv)
         = repeat (of_int 0) (nx sample_model)).
Proof.
  assert (H1 : (1 <= nk sample_run)%Z)
    by (simpl; lia).
  assert (H2 : nj sample_run <> 0%Z)
    by (simpl; discriminate).
  assert (H3 : nI sample_model = nx sample_model)
    by (reflexivity).
  assert (H4 : (forall x, length x = nx sample_model -> length (init_I sample_model x) = nx sample_model))
    by (reflexivity).
  assert (H5 : (forall x u, length x = nx sample_model -> length (ode_f sample_model x u) = nx sample_model))
    by (reflexivity).
  repeat (split; [assumption|]).
  exact (@feasible_iff_residual_and_defects_zero Z Scalar_Z sample_model sample_run
           H1 H2 H3 H4 H5).
Defined.

Lemma constraint_rows_read_three_blocks_witness :
  ((1 <= nk sample_run)%Z) /\
  (nj sample_run <> 0%Z) /\
  ((forall x, length x = nx sample_model -> length (init_I sample_model x) = nx sample_model)) /\
  ((forall x u, length x = nx sample_model -> length (ode_f sample_model x u) = nx sample_model)) /\
  exists T,
    transcribe sample_model sample_run = Ok T /\
    forall (vv vv' : list Z) (k : nat),
      length vv = nv T -> length vv' = nv T ->
      k + 1 < Z.to_nat (nk sample_run) ->
      x_block sample_model k vv = x_block sample_model k vv' ->
      u_block sample_model k vv = u_block sample_model k vv' ->
      x_block sample_model (k + 1) vv = x_block sample_model (k + 1) vv' ->
      firstn (nx sample_model) (skipn (nx sample_model * (k + 1)) (snd (nlp sample_model T vv)))
      = firstn (nx sample_model) (skipn (nx sample_model * (k + 1)) (snd (nlp sample_model T vv'))).
Proof.
  assert (H1 : (1 <= nk sample_run)%Z)
    by (simpl; lia).
  assert (H2 : nj sample_run <> 0%Z)
    by (simpl; discriminate).
  assert (H3 : (forall x, length x = nx sample_model -> length (init_I sample_model x) = nx sample_model))
    by (reflexivity).
  assert (H4 : (forall x u, length x = nx sample_model -> length (ode_f sample_model x u) = nx sample_model))
    by (reflexivity).
  repeat (split; [assumption|]).
  exact (@constraint_rows_read_three_blocks Z Scalar_Z sample_model sample_run
           H1 H2 H3 H4).
Defined.

Lemma transcribe_failure_places_witness :
  transcribe sample_model (sample_config 3 0) = Raise ZeroDivisionError 138 /\
  ((ZeroDivisionError = ZeroDivisionError /\ 138 = 107 /\
    nk (sample_config 3 0) = 0%Z) \/
   (ZeroDivisionError = ZeroDivisionError /\ 138 = 138 /\
    nk (sample_config 3 0) <> 0%Z /\ nj (sample_config 3 0) = 0%Z) \/
   (ZeroDivisionError = IndexError /\ 138 = 185 /\
    (nk (sample_config 3 0) < 0)%Z /\ nj (sample_config 3 0) <> 0%Z)).
Proof.
  assert (H1 : transcribe sample_model (sample_config 3 0)
               = Raise ZeroDivisionError 138)
    by reflexivity.
  split; [exact H1|].
  exact (@transcribe_failure_places Z Scalar_Z sample_model
           (sample_config 3 0) ZeroDivisionError 138 H1).
Defined.

Lemma integrator_state_composes_witness :
  (0 <= 2)%Z /\ (0 <= 3)%Z /\
  fst (integrator (ode_fcn (ode_f sample_model) (quad_L sample_model))
         6%Z (2 + 3) [1; 0]%Z [2]%Z)
  = fst (integrator (ode_fcn (ode_f sample_model) (quad_L sample_model))
           6%Z 3
           (fst (integrator
                   (ode_fcn (ode_f sample_model) (quad_L sample_model))
                   6%Z 2 [1; 0]%Z [2]%Z))
           [2]%Z).
Proof.
  assert (H1 : (0 <= 2)%Z) by lia.
  assert (H2 : (0 <= 3)%Z) by lia.
  repeat (split; [assumption|]).
  exact (@integrator_state_composes Z Scalar_Z
           (ode_fcn (ode_f sample_model) (quad_L sample_model))
           6%Z 2%Z 3%Z [1; 0]%Z [2]%Z H1 H2).
Defined.

(** The grid of four intervals over [tf = 12]: the last time is [tf]. *)
Example sample_tgrid :
  tgrid (sample_config 4 1) = [0; 3; 6; 9; 12]%Z /\
  linspace 0%Z 12%Z 1 = [0%Z] /\
  linspace 0%Z 12%Z 0 = [].
Proof. repeat split. Qed.
